(** * eventual-backend: events, the login ledger and the auth gate

    A shallow embedding of the Mongoose models [models/Event.js] and
    [models/LoginLog.js], of the passport configuration
    [config/passport.js] and of the routes [routes/auth.js] and
    [routes/events.js], together with the properties of the
    specification that concern them.

    Conventions of the embedding.
    - A JavaScript [Date] is its [getTime()] value, an integer number of
      milliseconds ([Z]).  Every evaluation of [new Date()] or
      [Date.now()] in the source is an explicit argument of the function
      that embeds it: the functions are pure in the clock readings.
    - A JavaScript [Number] holding a coordinate, a price or a capacity is
      a rational ([Q]); the queries only add, subtract and compare them.
    - A string is a [string] of 8-bit characters; [\w], [toLowerCase] and
      [trim] are taken on ASCII.
    - A collection is the list of its documents in insertion order; the
      [createdAt] and [updatedAt] stamps of the [timestamps] option are
      left out.
    - Mongoose's [save()] runs the schema validators first, then the
      [pre('save')] hooks in the order of their registration, then
      writes the document; it does so for a new document and for a
      loaded one.  The setters of a path ([lowercase], [trim]) run when
      the path is assigned and when a query filter on it is cast.
    - The libraries around the core ([jsonwebtoken], [passport-jwt], the
      cast to [ObjectId], the geocoder, the image store) are variables
      of the sections that use them. *)

From Stdlib Require Import ZArith QArith Bool List String Ascii DecimalString Lia Lqa.
From Stdlib Require Import Sorting.Sorted Sorting.Permutation.
From stdpp Require Import base option gmap strings.

Import ListNotations.
Local Open Scope string_scope.
Local Open Scope list_scope.
Local Open Scope Z_scope.

#[local] Arguments String.append !_ _ / : simpl nomatch.

(* ===================================================================== *)
(** * JavaScript strings *)
(* ===================================================================== *)

Module Js.

(** [c] lies in the closed range of character codes [lo..hi]. *)
Definition in_range (lo hi : ascii) (c : ascii) : bool :=
  (nat_of_ascii lo <=? nat_of_ascii c)%nat && (nat_of_ascii c <=? nat_of_ascii hi)%nat.

Definition is_upper (c : ascii) : bool := in_range "A" "Z" c.
Definition is_lower (c : ascii) : bool := in_range "a" "z" c.
Definition is_digit (c : ascii) : bool := in_range "0" "9" c.

(** The class [\w] of a regular expression without the [u] and [i] flags:
    [[A-Za-z0-9_]]. *)
Definition is_word (c : ascii) : bool :=
  is_upper c || is_lower c || is_digit c || Ascii.eqb c "_".

Definition lower_char (c : ascii) : ascii :=
  if is_upper c then ascii_of_nat (nat_of_ascii c + 32) else c.

(** [String.prototype.toLowerCase]. *)
Fixpoint toLowerCase (s : string) : string :=
  match s with
  | EmptyString => EmptyString
  | String c s' => String (lower_char c) (toLowerCase s')
  end.

(** White space removed by [String.prototype.trim]: space, tab, line feed,
    vertical tab, form feed, carriage return. *)
Definition is_space (c : ascii) : bool :=
  Ascii.eqb c " " || in_range (ascii_of_nat 9) (ascii_of_nat 13) c.

Fixpoint trimStart (s : string) : string :=
  match s with
  | String c s' => if is_space c then trimStart s' else s
  | EmptyString => EmptyString
  end.

Fixpoint trimEnd (s : string) : string :=
  match s with
  | EmptyString => EmptyString
  | String c s' =>
      match trimEnd s' with
      | EmptyString => if is_space c then EmptyString else String c EmptyString
      | t => String c t
      end
  end.

Definition trim (s : string) : string := trimEnd (trimStart s).

(** [s.substring(0, n)]: the first [n] characters, all of [s] when it is
    shorter. *)
Fixpoint take (n : nat) (s : string) : string :=
  match n, s with
  | S n', String c s' => String c (take n' s')
  | _, _ => EmptyString
  end.

(** [s.startsWith(p)]. *)
Fixpoint startsWith (p s : string) : bool :=
  match p, s with
  | EmptyString, _ => true
  | String a p', String b s' => Ascii.eqb a b && startsWith p' s'
  | String _ _, EmptyString => false
  end.

(** [s.includes(t)]: [t] occurs in [s] as a contiguous substring. *)
Fixpoint includes (t s : string) : bool :=
  startsWith t s ||
  match s with
  | EmptyString => false
  | String _ s' => includes t s'
  end.

Fixpoint drop (n : nat) (s : string) : string :=
  match n, s with
  | S n', String _ s' => drop n' s'
  | _, _ => s
  end.

(** [s.replace(pat, rep)] with a string pattern: the first occurrence. *)
Fixpoint replace (pat rep s : string) : string :=
  if startsWith pat s then (rep ++ drop (String.length pat) s)%string
  else match s with
       | EmptyString => EmptyString
       | String c s' => String c (replace pat rep s')
       end.

Fixpoint has_char (c : ascii) (s : string) : bool :=
  match s with
  | EmptyString => false
  | String a s' => Ascii.eqb a c || has_char c s'
  end.

(** [s.split(c).pop()]: what follows the last occurrence of [c], all of
    [s] when [c] does not occur. *)
Fixpoint after_last (c : ascii) (s : string) : string :=
  match s with
  | EmptyString => EmptyString
  | String a s' =>
      if has_char c s' then after_last c s'
      else if Ascii.eqb a c then s' else s
  end.

Fixpoint all_chars (p : ascii -> bool) (s : string) : bool :=
  match s with
  | EmptyString => true
  | String a s' => p a && all_chars p s'
  end.

(** Decimal digits, for the rendering of dates. *)
Definition digit (n : Z) : ascii := ascii_of_nat (48 + Z.to_nat (n mod 10)).
Definition pad2 (n : Z) : string := String (digit (n / 10)) (String (digit n) EmptyString).
Definition pad3 (n : Z) : string := String (digit (n / 100)) (pad2 n).
Definition pad4 (n : Z) : string := String (digit (n / 1000)) (pad3 n).

(** Year, month and day of the proleptic Gregorian calendar from the
    number of days since 1970-01-01. *)
Definition civil_from_days (days : Z) : Z * Z * Z :=
  let z := days + 719468 in
  let era := z / 146097 in
  let doe := z - era * 146097 in
  let yoe := (doe - doe / 1460 + doe / 36524 - doe / 146096) / 365 in
  let doy := doe - (365 * yoe + yoe / 4 - yoe / 100) in
  let mp := (5 * doy + 2) / 153 in
  let d := doy - (153 * mp + 2) / 5 + 1 in
  let m := if mp <? 10 then mp + 3 else mp - 9 in
  let y := yoe + era * 400 + (if m <=? 2 then 1 else 0) in
  (y, m, d).

(** [Date.prototype.toISOString] for the years 0000 to 9999. *)
Definition toISOString (ms : Z) : string :=
  let '(y, m, d) := civil_from_days (ms / 86400000) in
  let r := ms mod 86400000 in
  (pad4 y ++ "-" ++ pad2 m ++ "-" ++ pad2 d ++ "T" ++ pad2 (r / 3600000) ++ ":"
   ++ pad2 (r / 60000 mod 60) ++ ":" ++ pad2 (r / 1000 mod 60) ++ "."
   ++ pad3 (r mod 1000) ++ "Z")%string.

(** Truthiness of a string: only the empty string is falsy. *)
Definition truthy (s : string) : bool :=
  match s with EmptyString => false | _ => true end.

End Js.

(* ===================================================================== *)
(** * Regular expressions *)
(* ===================================================================== *)

(** The patterns of the source use character classes, concatenation,
    [?], [*], [+], bounded repetition and the anchors [^] and [$]
    around the whole pattern.  For such patterns, without the [m]
    flag, [re.test(s)] holds exactly when the whole of [s] belongs to
    the language of the pattern between the anchors. *)

Module Regex.

Inductive t : Type :=
| Void
| Eps
| Class (p : ascii -> bool)
| Cat (r1 r2 : t)
| Alt (r1 r2 : t)
| Star (r : t).

Definition Opt (r : t) : t := Alt Eps r.
Definition Plus (r : t) : t := Cat r (Star r).
(** [r{2,3}] *)
Definition Rep23 (r : t) : t := Cat r (Cat r (Opt r)).

(** The language of a pattern. *)
Inductive Matches : t -> string -> Prop :=
| MEps : Matches Eps ""
| MClass p c : p c = true -> Matches (Class p) (String c "")
| MCat r1 r2 s1 s2 : Matches r1 s1 -> Matches r2 s2 -> Matches (Cat r1 r2) (s1 ++ s2)%string
| MAltL r1 r2 s : Matches r1 s -> Matches (Alt r1 r2) s
| MAltR r1 r2 s : Matches r2 s -> Matches (Alt r1 r2) s
| MStar0 r : Matches (Star r) ""
| MStarS r s1 s2 : Matches r s1 -> Matches (Star r) s2 -> Matches (Star r) (s1 ++ s2)%string.

Fixpoint nullable (r : t) : bool :=
  match r with
  | Void => false
  | Eps => true
  | Class _ => false
  | Cat r1 r2 => nullable r1 && nullable r2
  | Alt r1 r2 => nullable r1 || nullable r2
  | Star _ => true
  end.

(** The derivative of a pattern by a character. *)
Fixpoint deriv (c : ascii) (r : t) : t :=
  match r with
  | Void => Void
  | Eps => Void
  | Class p => if p c then Eps else Void
  | Cat r1 r2 =>
      if nullable r1 then Alt (Cat (deriv c r1) r2) (deriv c r2)
      else Cat (deriv c r1) r2
  | Alt r1 r2 => Alt (deriv c r1) (deriv c r2)
  | Star r1 => Cat (deriv c r1) (Star r1)
  end.

(** [/^r$/.test(s)] *)
Fixpoint test (r : t) (s : string) : bool :=
  match s with
  | EmptyString => nullable r
  | String c s' => test (deriv c r) s'
  end.

End Regex.

(* ===================================================================== *)
(** * Shared schema pieces *)
(* ===================================================================== *)

Module Schema.

Import Regex.

Definition word : Regex.t := Class Js.is_word.
Definition dot_or_dash : Regex.t := Class (fun c => Ascii.eqb c "." || Ascii.eqb c "-").
Definition dot : Regex.t := Class (fun c => Ascii.eqb c ".").
Definition at_sign : Regex.t := Class (fun c => Ascii.eqb c "@").

(** [\w+([\.-]?\w+)*] *)
Definition dotted_words : Regex.t :=
  Cat (Plus word) (Star (Cat (Opt dot_or_dash) (Plus word))).

(** [(\.\w{2,3})] *)
Definition tld_group : Regex.t := Cat dot (Rep23 word).

(** [/^\w+([\.-]?\w+)*@\w+([\.-]?\w+)*(\.\w{2,3})+$/], the pattern of the
    [organizador] and [usuario] validators. *)
Definition email_pattern : Regex.t :=
  Cat dotted_words (Cat at_sign (Cat dotted_words (Plus tld_group))).

Definition email_validator (email : string) : bool := Regex.test email_pattern email.

(** The final label of the domain of an address: what follows its last
    dot. *)
Definition final_label (email : string) : string := Js.after_last "." email.

(** Two or three characters of the class [\w]. *)
Definition two_or_three_word_chars (l : string) : Prop :=
  (String.length l = 2%nat \/ String.length l = 3%nat) /\ Js.all_chars Js.is_word l = true.

(** A validation failure: the path and the message of the validator that
    rejected it.  Mongoose collects one failure per path into the
    [errors] of a [ValidationError]. *)
Definition FieldError : Type := (string * string)%type.

(** The outcome of running the validators of one path in order: the first
    that fails reports. *)
Fixpoint run_validators (path : string) (vs : list (bool * string)) : list FieldError :=
  match vs with
  | [] => []
  | (ok, msg) :: vs' => if ok then run_validators path vs' else [(path, msg)]
  end.

Definition enum_validator (allowed : list string) (v : string) : bool :=
  existsb (String.eqb v) allowed.

(** What [doc.save()] can reject with. *)
Inductive SaveError : Type :=
| ValidationError (errors : list FieldError)
| HookError (message : string).

(** Values of a plain object produced by [toObject]: strings (an
    [ObjectId] is its hexadecimal string), dates and integers. *)
Inductive JsVal : Type :=
| JStr (s : string)
| JDate (ms : Z)
| JInt (n : Z).

End Schema.

(* ===================================================================== *)
(** * models/LoginLog.js *)
(* ===================================================================== *)

Module LoginLog.

Import Schema.

Record doc : Type := mkDoc {
  _id : string;
  timestamp : Z;
  usuario : string;
  caducidad : Z;
  token : string;
  provider : string;
  userAgent : string;
  ipAddress : string;
  loginType : string
}.

(** The object literal given to [new LoginLog({...})]; a field left out is
    [None] and takes its schema default. *)
Record fields : Type := mkFields {
  f_timestamp : option Z;
  f_usuario : string;
  f_caducidad : Z;
  f_token : string;
  f_provider : option string;
  f_userAgent : option string;
  f_ipAddress : option string;
  f_loginType : option string
}.

(** [new LoginLog(f)].  [oid] is the fresh [_id]; [date_now] is the reading
    of [Date.now] taken for the default of [timestamp].  The [lowercase]
    setter applies to [usuario]. *)
Definition new (oid : string) (date_now : Z) (f : fields) : doc :=
  {| _id := oid;
     timestamp := default date_now (f_timestamp f);
     usuario := Js.toLowerCase (f_usuario f);
     caducidad := f_caducidad f;
     token := f_token f;
     provider := default "google" (f_provider f);
     userAgent := default "" (f_userAgent f);
     ipAddress := default "" (f_ipAddress f);
     loginType := default "login" (f_loginType f) |}.

Definition providers : list string := ["google"; "facebook"; "local"].
Definition loginTypes : list string := ["login"; "refresh"; "logout"].

(** The [caducidad] validator: [value > this.timestamp]. *)
Definition caducidad_validator (d : doc) (value : Z) : bool := value >? timestamp d.

(** Schema validation of a document. *)
Definition validate (d : doc) : list FieldError :=
  run_validators "usuario"
    [ (Js.truthy (usuario d), "El email del usuario es obligatorio");
      (email_validator (usuario d), "Email inválido") ]
  ++ run_validators "caducidad"
    [ (caducidad_validator d (caducidad d),
       "La fecha de caducidad debe ser posterior al login") ]
  ++ run_validators "token"
    [ (Js.truthy (token d), "El token de identificación es obligatorio") ]
  ++ run_validators "provider"
    [ (Js.truthy (provider d), "Path `provider` is required.");
      (enum_validator providers (provider d),
       "`{VALUE}` is not a valid enum value for path `provider`.") ]
  ++ run_validators "loginType"
    [ (enum_validator loginTypes (loginType d),
       "`{VALUE}` is not a valid enum value for path `loginType`.") ].

Definition thirty_days : Z := 30 * 24 * 60 * 60 * 1000.

(** [loginLogSchema.pre('save')]: the expiry is at most thirty days after
    [timestamp]. *)
Definition pre_save (d : doc) : doc :=
  let maxExpiryDate := timestamp d + thirty_days in
  if caducidad d >? maxExpiryDate then
    {| _id := _id d; timestamp := timestamp d; usuario := usuario d;
       caducidad := maxExpiryDate; token := token d; provider := provider d;
       userAgent := userAgent d; ipAddress := ipAddress d;
       loginType := loginType d |}
  else d.

(** [doc.save()] of a new document on the collection [coll]: the stored
    document and the collection after the write, or the rejection, which
    leaves the collection as it was. *)
Definition save (d : doc) (coll : list doc) : SaveError + (doc * list doc) :=
  match validate d with
  | [] => let d' := pre_save d in inr (d', coll ++ [d'])
  | errs => inl (ValidationError errs)
  end.

(** [LoginLog.findOne({ usuario: email, caducidad: { $gt: now } })].
    Mongoose casts the filter with the schema, and the cast of a string
    path runs its setters: the [lowercase] setter of [usuario] applies to
    [email] before the comparison. *)
Definition findOne_live_for_user (email : string) (now : Z) (coll : list doc) : option doc :=
  List.find
    (fun d => String.eqb (usuario d) (Js.toLowerCase email) && (caducidad d >? now)) coll.

(** [LoginLog.isTokenValid(token)] *)
Definition isTokenValid (tok : string) (now : Z) (coll : list doc) : option doc :=
  List.find (fun d => String.eqb (token d) tok && (caducidad d >? now)) coll.

(** [LoginLog.cleanExpiredTokens()]: [deleteMany({ caducidad: { $lt: now } })].
    The result carries [deletedCount] and the collection that remains. *)
Definition expired (now : Z) (d : doc) : bool := caducidad d <? now.

Definition cleanExpiredTokens (now : Z) (coll : list doc) : nat * list doc :=
  (List.length (List.filter (expired now) coll),
   List.filter (fun d => negb (expired now d)) coll).

(** [doc.toObject()] of a stored document: every path of the schema, the
    identifier and the version key. *)
Definition toObject (d : doc) : gmap string JsVal :=
  <["_id" := JStr (_id d)]>
  (<["timestamp" := JDate (timestamp d)]>
  (<["usuario" := JStr (usuario d)]>
  (<["caducidad" := JDate (caducidad d)]>
  (<["token" := JStr (token d)]>
  (<["provider" := JStr (provider d)]>
  (<["userAgent" := JStr (userAgent d)]>
  (<["ipAddress" := JStr (ipAddress d)]>
  (<["loginType" := JStr (loginType d)]>
  (<["__v" := JInt 0]> ∅))))))))).

(** Truthiness of [ret.token]. *)
Definition truthy_token (v : option JsVal) : option string :=
  match v with
  | Some (JStr s) => if Js.truthy s then Some s else None
  | _ => None
  end.

(** The [toJSON] transform of the schema. *)
Definition transform (ret : gmap string JsVal) : gmap string JsVal :=
  let ret1 :=
    match ret !! "_id" with
    | Some v => <["id" := v]> ret
    | None => delete "id" ret
    end in
  let ret2 := delete "_id" ret1 in
  let ret3 := delete "__v" ret2 in
  match truthy_token (ret3 !! "token") with
  | Some tok =>
      delete "token" (<["tokenPreview" := JStr (Js.take 10 tok ++ "...")%string]> ret3)
  | None => ret3
  end.

Definition toJSON (d : doc) : gmap string JsVal := transform (toObject d).

End LoginLog.

(* ===================================================================== *)
(** * models/Event.js *)
(* ===================================================================== *)

Module Event.

Import Schema.

Record doc : Type := mkDoc {
  _id : string;
  nombre : string;
  timestamp : Z;
  lugar : string;
  lat : Q;
  lon : Q;
  organizador : string;
  imagen : option string;
  descripcion : string;
  categoria : string;
  precio : Q;
  capacidad : option Q
}.

(** The object literal given to [new Event({...})]. *)
Record fields : Type := mkFields {
  f_nombre : string;
  f_timestamp : Z;
  f_lugar : string;
  f_lat : Q;
  f_lon : Q;
  f_organizador : string;
  f_imagen : option string;
  f_descripcion : string;
  f_categoria : string;
  f_precio : Q;
  f_capacidad : option Q
}.

(** [new Event(f)]: the [trim] and [lowercase] setters apply. *)
Definition new (oid : string) (f : fields) : doc :=
  {| _id := oid;
     nombre := Js.trim (f_nombre f);
     timestamp := f_timestamp f;
     lugar := Js.trim (f_lugar f);
     lat := f_lat f;
     lon := f_lon f;
     organizador := Js.toLowerCase (f_organizador f);
     imagen := f_imagen f;
     descripcion := f_descripcion f;
     categoria := f_categoria f;
     precio := f_precio f;
     capacidad := f_capacidad f |}.

Definition categorias : list string :=
  ["cultural"; "deportivo"; "musical"; "educativo"; "gastronómico"; "tecnológico"; "otro"].

(** The [timestamp] validator: [value > new Date()]. *)
Definition timestamp_validator (new_Date : Z) (value : Z) : bool := value >? new_Date.

(** The [imagen] validator: [if (!url) return true;] covers [null] and the
    empty string. *)
Definition imagen_validator (v : option string) : bool :=
  match v with
  | None => true
  | Some url =>
      if negb (Js.truthy url) then true
      else Js.startsWith "http://" url || Js.startsWith "https://" url
  end.

Definition maxLength (n : nat) (s : string) : bool := (String.length s <=? n)%nat.

(** Schema validation of a document; [new_Date] is the clock reading of the
    [timestamp] validator. *)
Definition validate (new_Date : Z) (d : doc) : list FieldError :=
  run_validators "nombre"
    [ (Js.truthy (nombre d), "El nombre del evento es obligatorio");
      (maxLength 200 (nombre d), "El nombre no puede superar los 200 caracteres") ]
  ++ run_validators "timestamp"
    [ (timestamp_validator new_Date (timestamp d), "La fecha del evento debe ser futura") ]
  ++ run_validators "lugar"
    [ (Js.truthy (lugar d), "La dirección del evento es obligatoria");
      (maxLength 500 (lugar d), "La dirección no puede superar los 500 caracteres") ]
  ++ run_validators "lat"
    [ (Qle_bool (-90) (lat d), "La latitud debe estar entre -90 y 90");
      (Qle_bool (lat d) 90, "La latitud debe estar entre -90 y 90") ]
  ++ run_validators "lon"
    [ (Qle_bool (-180) (lon d), "La longitud debe estar entre -180 y 180");
      (Qle_bool (lon d) 180, "La longitud debe estar entre -180 y 180") ]
  ++ run_validators "organizador"
    [ (Js.truthy (organizador d), "El email del organizador es obligatorio");
      (email_validator (organizador d), "Email inválido") ]
  ++ run_validators "imagen"
    [ (imagen_validator (imagen d), "La imagen debe ser una URL válida") ]
  ++ run_validators "descripcion"
    [ (maxLength 2000 (descripcion d),
       "La descripción no puede superar los 2000 caracteres") ]
  ++ run_validators "categoria"
    [ (enum_validator categorias (categoria d),
       "`{VALUE}` is not a valid enum value for path `categoria`.") ]
  ++ run_validators "precio"
    [ (Qle_bool 0 (precio d), "El precio no puede ser negativo") ]
  ++ run_validators "capacidad"
    [ (match capacidad d with None => true | Some c => Qle_bool 1 c end,
       "La capacidad debe ser al menos 1") ].

(** [eventSchema.pre('save')]: [this.isNew && this.timestamp <= new Date()]
    rejects. *)
Definition pre_save (isNew : bool) (new_Date : Z) (d : doc) : option string :=
  if isNew && (timestamp d <=? new_Date)
  then Some "No se pueden crear eventos con fecha pasada"
  else None.

(** The two clock readings of one [save()], in the order they are
    taken. *)
Record SaveClock : Type := mkClock {
  at_validate : Z;
  at_pre_save : Z
}.

(** The collection with the document of identifier [_id d] replaced by
    [d]. *)
Fixpoint replace (d : doc) (coll : list doc) : list doc :=
  match coll with
  | [] => []
  | e :: coll' =>
      if String.eqb (_id e) (_id d) then d :: coll' else e :: replace d coll'
  end.

(** [doc.save()]: a new document is inserted, a loaded one is written
    back.  A rejection leaves the collection as it was.  The validators
    run on a loaded document as on a new one: [save()] validates the
    required and the modified paths, and [timestamp] is required. *)
Definition save (isNew : bool) (clk : SaveClock) (d : doc) (coll : list doc)
  : SaveError + (doc * list doc) :=
  match validate (at_validate clk) d with
  | [] =>
      match pre_save isNew (at_pre_save clk) d with
      | Some msg => inl (HookError msg)
      | None => inr (d, if isNew then coll ++ [d] else replace d coll)
      end
  | errs => inl (ValidationError errs)
  end.

(** [Event.findById(id)] on an identifier that casts. *)
Definition findById (oid : string) (coll : list doc) : option doc :=
  List.find (fun d => String.eqb (_id d) oid) coll.

(** [Event.findByIdAndDelete(id)] *)
Fixpoint findByIdAndDelete (oid : string) (coll : list doc) : list doc :=
  match coll with
  | [] => []
  | e :: coll' =>
      if String.eqb (_id e) oid then coll' else e :: findByIdAndDelete oid coll'
  end.

(** [.sort({ timestamp: 1 })] *)
Fixpoint insert_by_timestamp (d : doc) (l : list doc) : list doc :=
  match l with
  | [] => [d]
  | e :: l' =>
      if timestamp d <=? timestamp e then d :: e :: l'
      else e :: insert_by_timestamp d l'
  end.

Fixpoint sort_by_timestamp (l : list doc) : list doc :=
  match l with
  | [] => []
  | d :: l' => insert_by_timestamp d (sort_by_timestamp l')
  end.

(** The query of [findNearby]:
    [{ lat: { $gte: lat - maxDistance, $lte: lat + maxDistance },
       lon: { $gte: lon - maxDistance, $lte: lon + maxDistance },
       timestamp: { $gte: new Date() } }]. *)
Definition nearby (new_Date : Z) (qlat qlon maxDistance : Q) (d : doc) : bool :=
  Qle_bool (qlat - maxDistance) (lat d) && Qle_bool (lat d) (qlat + maxDistance)
  && Qle_bool (qlon - maxDistance) (lon d) && Qle_bool (lon d) (qlon + maxDistance)
  && (new_Date <=? timestamp d).

(** The default of the parameter [maxDistance]. *)
Definition default_maxDistance : Q := 2 # 10.

(** [Event.findNearby(lat, lon, maxDistance = 0.2)]; an argument left out
    is [None]. *)
Definition findNearby (new_Date : Z) (qlat qlon : Q) (maxDistance : option Q)
    (coll : list doc) : list doc :=
  let r := default default_maxDistance maxDistance in
  sort_by_timestamp (List.filter (nearby new_Date qlat qlon r) coll).

End Event.

(* ===================================================================== *)
(** * HTTP responses *)
(* ===================================================================== *)

Module Http.

Inductive Body : Type :=
| Unauthorized
| Error (error : string) (details : list string)
| Token (token expiresIn : string)
| Logout (message : string) (timestamp : Z)
| EventBody (message : string) (event : Event.doc)
| Deleted (message : string) (id nombre : string).

Record Response : Type := mkResponse { status : nat; body : Body }.



(** The headers and connection data a handler reads. *)
Record Request : Type := mkRequest {
  authorization : option string;
  user_agent : option string;
  ip : string
}.

End Http.

(* ===================================================================== *)
(** * config/passport.js *)
(* ===================================================================== *)

Module Passport.

Import Http.

(** The claims signed into a token, and [req.user] after [requireAuth]. *)
Record JwtPayload : Type := mkPayload {
  id : string;
  email : string;
  name : string;
  provider : string
}.

Record Profile : Type := mkProfile {
  profile_id : string;
  emails : list string;
  displayName : string;
  photos : list string
}.

Record User : Type := mkUser {
  user_id : string;
  user_email : string;
  user_name : string;
  picture : string;
  user_provider : string;
  user_token : string
}.

Definition day : Z := 24 * 60 * 60 * 1000.

Section Strategies.

(** [jsonwebtoken] with [JWT_SECRET]: [jwt.sign(payload, secret,
    { expiresIn: '24h' })] at a clock reading, and the verification of
    signature and expiry that [passport-jwt] performs at a clock reading. *)
Variable jwt_sign : JwtPayload -> Z -> string.
Variable jwt_verify : string -> Z -> option JwtPayload.
(** [ExtractJwt.fromAuthHeaderAsBearerToken()] on the [Authorization]
    header. *)
Variable fromAuthHeaderAsBearerToken : option string -> option string.

(** The verify callback of the Google strategy.  [t_sign] is the clock of
    [jwt.sign], [t0] the reading of [Date.now()] for [expiryDate], [t1] the
    later reading for the default [timestamp] of the new entry. *)
Definition google_verify (t_sign t0 t1 : Z) (oid : string) (profile : Profile)
    (ledger : list LoginLog.doc) : option User * list LoginLog.doc :=
  match emails profile, photos profile with
  | mail :: _, photo :: _ =>
      let payload := {| id := profile_id profile; email := mail;
                        name := displayName profile; provider := "google" |} in
      let token := jwt_sign payload t_sign in
      let expiryDate := t0 + day in
      let loginLog := LoginLog.new oid t1
        {| LoginLog.f_timestamp := None;
           LoginLog.f_usuario := mail;
           LoginLog.f_caducidad := expiryDate;
           LoginLog.f_token := token;
           LoginLog.f_provider := Some "google";
           LoginLog.f_userAgent := None;
           LoginLog.f_ipAddress := None;
           LoginLog.f_loginType := Some "login" |} in
      match LoginLog.save loginLog ledger with
      | inr (_, ledger') =>
          (Some {| user_id := profile_id profile; user_email := mail;
                   user_name := displayName profile; picture := photo;
                   user_provider := "google"; user_token := token |}, ledger')
      | inl _ => (None, ledger)
      end
  | _, _ => (None, ledger)
  end.

(** The verify callback of the JWT strategy: [done(null, jwtPayload)] is
    [Some jwtPayload], [done(null, false)] is [None]. *)
Definition jwt_verify_callback (new_Date : Z) (jwtPayload : JwtPayload)
    (ledger : list LoginLog.doc) : option JwtPayload :=
  match LoginLog.findOne_live_for_user (email jwtPayload) new_Date ledger with
  | Some logEntry => Some jwtPayload
  | None => None
  end.

(** [requireAuth = passport.authenticate('jwt', { session: false })]:
    [req.user], or the 401 response.  [t_jwt] is the clock of the token
    verification, [t_query] the reading of [new Date()] in the callback. *)
Definition requireAuth (t_jwt t_query : Z) (req : Request)
    (ledger : list LoginLog.doc) : Response + JwtPayload :=
  match fromAuthHeaderAsBearerToken (authorization req) with
  | None => inl {| status := 401; body := Unauthorized |}
  | Some tok =>
      match jwt_verify tok t_jwt with
      | None => inl {| status := 401; body := Unauthorized |}
      | Some jwtPayload =>
          match jwt_verify_callback t_query jwtPayload ledger with
          | Some user => inr user
          | None => inl {| status := 401; body := Unauthorized |}
          end
      end
  end.

(** [Event.findById] on the route parameter: the cast to an [ObjectId]
    may throw. *)
Variable castObjectId : string -> option string.

(** [requireEventOwnership]: the response that ends the request, or
    [req.event] for the next handler. *)
Definition requireEventOwnership (param_id : string) (user : JwtPayload)
    (events : list Event.doc) : Response + Event.doc :=
  match castObjectId param_id with
  | None => inl {| status := 500; body := Error "Error verificando permisos" [] |}
  | Some oid =>
      match Event.findById oid events with
      | None => inl {| status := 404; body := Error "Evento no encontrado" [] |}
      | Some event =>
          if negb (String.eqb (Event.organizador event) (email user))
          then inl {| status := 403;
                      body := Error "No tienes permisos para realizar esta acción. Solo el organizador puede modificar el evento." [] |}
          else inr event
      end
  end.

End Strategies.

End Passport.

(* ===================================================================== *)
(** * routes/auth.js *)
(* ===================================================================== *)

Module AuthRoutes.

Import Http Passport.

Section Routes.

Variable jwt_sign : JwtPayload -> Z -> string.
Variable jwt_verify : string -> Z -> option JwtPayload.
Variable fromAuthHeaderAsBearerToken : option string -> option string.

(** The handler of [POST /refresh].  [t_sign] is the clock of [jwt.sign],
    [t0] the reading of [Date.now()] for [expiryDate], [t1] the later
    reading for the default [timestamp]. *)
Definition refresh_handler (t_sign t0 t1 : Z) (oid : string) (req : Request)
    (user : JwtPayload) (ledger : list LoginLog.doc) : Response * list LoginLog.doc :=
  let newToken := jwt_sign user t_sign in
  let expiryDate := t0 + day in
  let refreshLog := LoginLog.new oid t1
    {| LoginLog.f_timestamp := None;
       LoginLog.f_usuario := email user;
       LoginLog.f_caducidad := expiryDate;
       LoginLog.f_token := newToken;
       LoginLog.f_provider := Some (provider user);
       LoginLog.f_userAgent := Some (default "" (user_agent req));
       LoginLog.f_ipAddress := Some (ip req);
       LoginLog.f_loginType := Some "refresh" |} in
  match LoginLog.save refreshLog ledger with
  | inr (_, ledger') =>
      ({| status := 200; body := Token newToken "24h" |}, ledger')
  | inl _ =>
      ({| status := 500; body := Error "Error renovando token" [] |}, ledger)
  end.

(** The handler of [POST /logout].  [t0] is the reading of [new Date()] for
    [caducidad], [t1] the later reading of [Date.now] for the default
    [timestamp], [t2] the reading for the response. *)
Definition logout_handler (t0 t1 t2 : Z) (oid : string) (req : Request)
    (user : JwtPayload) (ledger : list LoginLog.doc) : Response * list LoginLog.doc :=
  let logoutLog := LoginLog.new oid t1
    {| LoginLog.f_timestamp := None;
       LoginLog.f_usuario := email user;
       LoginLog.f_caducidad := t0;
       LoginLog.f_token :=
         match authorization req with
         | Some h => Js.replace "Bearer " "" h
         | None => ""
         end;
       LoginLog.f_provider := Some (provider user);
       LoginLog.f_userAgent := Some (default "" (user_agent req));
       LoginLog.f_ipAddress := Some (ip req);
       LoginLog.f_loginType := Some "logout" |} in
  match LoginLog.save logoutLog ledger with
  | inr (_, ledger') =>
      ({| status := 200; body := Logout "Logout exitoso" t2 |}, ledger')
  | inl _ =>
      ({| status := 500; body := Error "Error en logout" [] |}, ledger)
  end.

(** A route behind [passport.authenticate('jwt', { session: false })]. *)
Definition authenticated (t_jwt t_query : Z) (req : Request)
    (handler : JwtPayload -> list LoginLog.doc -> Response * list LoginLog.doc)
    (ledger : list LoginLog.doc) : Response * list LoginLog.doc :=
  match requireAuth jwt_verify fromAuthHeaderAsBearerToken t_jwt t_query req ledger with
  | inl rejection => (rejection, ledger)
  | inr user => handler user ledger
  end.

Definition post_refresh (t_jwt t_query t_sign t0 t1 : Z) (oid : string) (req : Request)
    (ledger : list LoginLog.doc) : Response * list LoginLog.doc :=
  authenticated t_jwt t_query req (refresh_handler t_sign t0 t1 oid req) ledger.

Definition post_logout (t_jwt t_query t0 t1 t2 : Z) (oid : string) (req : Request)
    (ledger : list LoginLog.doc) : Response * list LoginLog.doc :=
  authenticated t_jwt t_query req (logout_handler t0 t1 t2 oid req) ledger.

End Routes.

End AuthRoutes.

(* ===================================================================== *)
(** * routes/events.js *)
(* ===================================================================== *)

Module EventRoutes.

Import Http Passport.

Record Coordinates : Type := mkCoordinates {
  c_lat : Q;
  c_lon : Q;
  formatted : string
}.

(** The parsed body of [POST /api/events]; a field left out is [None]. *)
Record CreateBody : Type := mkCreateBody {
  c_nombre : option string;
  c_timestamp : option Z;
  c_lugar : option string;
  c_descripcion : option string;
  c_categoria : option string;
  c_precio : option Q;
  c_capacidad : option Q;
  c_file : option string
}.

(** The parsed body of [PUT /api/events/:id].  For [capacidad],
    [Some None] is a value that is present and falsy. *)
Record UpdateBody : Type := mkUpdateBody {
  u_nombre : option string;
  u_timestamp : option Z;
  u_lugar : option string;
  u_descripcion : option string;
  u_categoria : option string;
  u_precio : option Q;
  u_capacidad : option (option Q);
  u_file : option string
}.

(** [x || d] on a string that may be missing. *)
Definition or_else (x : option string) (d : string) : string :=
  match x with
  | Some s => if Js.truthy s then s else d
  | None => d
  end.

Definition truthy_opt (x : option string) : bool :=
  match x with Some s => Js.truthy s | None => false end.

Definition set_nombre (v : string) (e : Event.doc) : Event.doc :=
  {| Event._id := Event._id e; Event.nombre := Js.trim v;
     Event.timestamp := Event.timestamp e; Event.lugar := Event.lugar e;
     Event.lat := Event.lat e; Event.lon := Event.lon e;
     Event.organizador := Event.organizador e; Event.imagen := Event.imagen e;
     Event.descripcion := Event.descripcion e; Event.categoria := Event.categoria e;
     Event.precio := Event.precio e; Event.capacidad := Event.capacidad e |}.

Definition set_timestamp (v : Z) (e : Event.doc) : Event.doc :=
  {| Event._id := Event._id e; Event.nombre := Event.nombre e;
     Event.timestamp := v; Event.lugar := Event.lugar e;
     Event.lat := Event.lat e; Event.lon := Event.lon e;
     Event.organizador := Event.organizador e; Event.imagen := Event.imagen e;
     Event.descripcion := Event.descripcion e; Event.categoria := Event.categoria e;
     Event.precio := Event.precio e; Event.capacidad := Event.capacidad e |}.

Definition set_descripcion (v : string) (e : Event.doc) : Event.doc :=
  {| Event._id := Event._id e; Event.nombre := Event.nombre e;
     Event.timestamp := Event.timestamp e; Event.lugar := Event.lugar e;
     Event.lat := Event.lat e; Event.lon := Event.lon e;
     Event.organizador := Event.organizador e; Event.imagen := Event.imagen e;
     Event.descripcion := v; Event.categoria := Event.categoria e;
     Event.precio := Event.precio e; Event.capacidad := Event.capacidad e |}.

Definition set_categoria (v : string) (e : Event.doc) : Event.doc :=
  {| Event._id := Event._id e; Event.nombre := Event.nombre e;
     Event.timestamp := Event.timestamp e; Event.lugar := Event.lugar e;
     Event.lat := Event.lat e; Event.lon := Event.lon e;
     Event.organizador := Event.organizador e; Event.imagen := Event.imagen e;
     Event.descripcion := Event.descripcion e; Event.categoria := v;
     Event.precio := Event.precio e; Event.capacidad := Event.capacidad e |}.

Definition set_precio (v : Q) (e : Event.doc) : Event.doc :=
  {| Event._id := Event._id e; Event.nombre := Event.nombre e;
     Event.timestamp := Event.timestamp e; Event.lugar := Event.lugar e;
     Event.lat := Event.lat e; Event.lon := Event.lon e;
     Event.organizador := Event.organizador e; Event.imagen := Event.imagen e;
     Event.descripcion := Event.descripcion e; Event.categoria := Event.categoria e;
     Event.precio := v; Event.capacidad := Event.capacidad e |}.

Definition set_capacidad (v : option Q) (e : Event.doc) : Event.doc :=
  {| Event._id := Event._id e; Event.nombre := Event.nombre e;
     Event.timestamp := Event.timestamp e; Event.lugar := Event.lugar e;
     Event.lat := Event.lat e; Event.lon := Event.lon e;
     Event.organizador := Event.organizador e; Event.imagen := Event.imagen e;
     Event.descripcion := Event.descripcion e; Event.categoria := Event.categoria e;
     Event.precio := Event.precio e; Event.capacidad := v |}.

Definition set_location (c : Coordinates) (lugar : string) (e : Event.doc) : Event.doc :=
  {| Event._id := Event._id e; Event.nombre := Event.nombre e;
     Event.timestamp := Event.timestamp e;
     Event.lugar := Js.trim (or_else (Some (formatted c)) lugar);
     Event.lat := c_lat c; Event.lon := c_lon c;
     Event.organizador := Event.organizador e; Event.imagen := Event.imagen e;
     Event.descripcion := Event.descripcion e; Event.categoria := Event.categoria e;
     Event.precio := Event.precio e; Event.capacidad := Event.capacidad e |}.

Definition set_imagen (v : string) (e : Event.doc) : Event.doc :=
  {| Event._id := Event._id e; Event.nombre := Event.nombre e;
     Event.timestamp := Event.timestamp e; Event.lugar := Event.lugar e;
     Event.lat := Event.lat e; Event.lon := Event.lon e;
     Event.organizador := Event.organizador e; Event.imagen := Some v;
     Event.descripcion := Event.descripcion e; Event.categoria := Event.categoria e;
     Event.precio := Event.precio e; Event.capacidad := Event.capacidad e |}.

(** [if (c) e.f = v] for an optional value. *)
Definition assign_if {A : Type} (c : bool) (x : option A)
    (set : A -> Event.doc -> Event.doc) (e : Event.doc) : Event.doc :=
  match x with
  | Some v => if c then set v e else e
  | None => e
  end.

(** The messages of a rejected [save()]. *)
Definition details_of (errs : list Schema.FieldError) : list string := List.map snd errs.

Definition save_failed (what : string) (err : Schema.SaveError) : Response :=
  match err with
  | Schema.ValidationError errs =>
      {| status := 400; body := Error "Error de validación" (details_of errs) |}
  | Schema.HookError _ => {| status := 500; body := Error what [] |}
  end.

Section Routes.

Variable jwt_verify : string -> Z -> option JwtPayload.
Variable fromAuthHeaderAsBearerToken : option string -> option string.
Variable castObjectId : string -> option string.
(** [getCoordinatesFromAddress]: the geocoder's answer, [None] when it
    throws. *)
Variable getCoordinatesFromAddress : string -> option Coordinates.
(** [uploadImage(base64Image, 'eventos')]: the URL of a successful
    upload. *)
Variable uploadImage : string -> option string.

(** The handler of [POST /api/events]. *)
Definition create_handler (clk : Event.SaveClock) (oid : string) (b : CreateBody)
    (user : JwtPayload) (events : list Event.doc) : Response * list Event.doc :=
  match truthy_opt (c_nombre b), c_timestamp b, truthy_opt (c_lugar b) with
  | true, Some ts, true =>
      let nombre := or_else (c_nombre b) "" in
      let lugar := or_else (c_lugar b) "" in
      match getCoordinatesFromAddress lugar with
      | None =>
          ({| status := 400;
              body := Error "No se pudieron obtener las coordenadas de la dirección" [] |},
           events)
      | Some coordinates =>
          let imageUrl :=
            match c_file b with
            | Some file => uploadImage file
            | None => None
            end in
          let newEvent := Event.new oid
            {| Event.f_nombre := nombre;
               Event.f_timestamp := ts;
               Event.f_lugar := or_else (Some (formatted coordinates)) lugar;
               Event.f_lat := c_lat coordinates;
               Event.f_lon := c_lon coordinates;
               Event.f_organizador := email user;
               Event.f_imagen := imageUrl;
               Event.f_descripcion := or_else (c_descripcion b) "";
               Event.f_categoria := or_else (c_categoria b) "otro";
               Event.f_precio := default 0%Q (c_precio b);
               Event.f_capacidad := c_capacidad b |} in
          match Event.save true clk newEvent events with
          | inr (savedEvent, events') =>
              ({| status := 201; body := EventBody "Evento creado exitosamente" savedEvent |},
               events')
          | inl err => (save_failed "Error creando evento" err, events)
          end
      end
  | _, _, _ =>
      ({| status := 400;
          body := Error "Faltan campos obligatorios: nombre, timestamp y lugar son requeridos" [] |},
       events)
  end.

(** The assignments of the handler of [PUT /api/events/:id] up to the
    change of address. *)
Definition apply_basic (b : UpdateBody) (event : Event.doc) : Event.doc :=
  let e1 := assign_if (truthy_opt (u_nombre b)) (u_nombre b) set_nombre event in
  let e2 := assign_if true (u_timestamp b) set_timestamp e1 in
  let e3 := assign_if true (u_descripcion b) set_descripcion e2 in
  let e4 := assign_if (truthy_opt (u_categoria b)) (u_categoria b) set_categoria e3 in
  let e5 := assign_if true (u_precio b) set_precio e4 in
  assign_if true (u_capacidad b) set_capacidad e5.

(** The handler of [PUT /api/events/:id] on [req.event]. *)
Definition update_handler (clk : Event.SaveClock) (b : UpdateBody)
    (event : Event.doc) (events : list Event.doc) : Response * list Event.doc :=
  let e := apply_basic b event in
  let located :=
    match u_lugar b with
    | Some lugar =>
        if Js.truthy lugar && negb (String.eqb lugar (Event.lugar e))
        then match getCoordinatesFromAddress lugar with
             | Some coordinates => Some (set_location coordinates lugar e)
             | None => None
             end
        else Some e
    | None => Some e
    end in
  match located with
  | None =>
      ({| status := 400;
          body := Error "No se pudieron obtener las coordenadas de la nueva dirección" [] |},
       events)
  | Some e' =>
      let e'' :=
        match u_file b with
        | Some file =>
            match uploadImage file with
            | Some url => set_imagen url e'
            | None => e'
            end
        | None => e'
        end in
      match Event.save false clk e'' events with
      | inr (updatedEvent, events') =>
          ({| status := 200;
              body := EventBody "Evento actualizado exitosamente" updatedEvent |},
           events')
      | inl err => (save_failed "Error actualizando evento" err, events)
      end
  end.

(** The handler of [DELETE /api/events/:id] on [req.event]. *)
Definition delete_handler (param_id : string) (event : Event.doc)
    (events : list Event.doc) : Response * list Event.doc :=
  match castObjectId param_id with
  | Some oid =>
      ({| status := 200;
          body := Deleted "Evento eliminado exitosamente" (Event._id event) (Event.nombre event) |},
       Event.findByIdAndDelete oid events)
  | None => ({| status := 500; body := Error "Error eliminando evento" [] |}, events)
  end.

(** A route behind [requireAuth, requireEventOwnership]. *)
Definition owned (t_jwt t_query : Z) (req : Request) (param_id : string)
    (handler : Event.doc -> list Event.doc -> Response * list Event.doc)
    (ledger : list LoginLog.doc) (events : list Event.doc) : Response * list Event.doc :=
  match requireAuth jwt_verify fromAuthHeaderAsBearerToken t_jwt t_query req ledger with
  | inl rejection => (rejection, events)
  | inr user =>
      match requireEventOwnership castObjectId param_id user events with
      | inl rejection => (rejection, events)
      | inr event => handler event events
      end
  end.

Definition post_event (t_jwt t_query : Z) (clk : Event.SaveClock) (oid : string)
    (req : Request) (b : CreateBody) (ledger : list LoginLog.doc)
    (events : list Event.doc) : Response * list Event.doc :=
  match requireAuth jwt_verify fromAuthHeaderAsBearerToken t_jwt t_query req ledger with
  | inl rejection => (rejection, events)
  | inr user => create_handler clk oid b user events
  end.

Definition put_event (t_jwt t_query : Z) (clk : Event.SaveClock) (req : Request)
    (param_id : string) (b : UpdateBody) (ledger : list LoginLog.doc)
    (events : list Event.doc) : Response * list Event.doc :=
  owned t_jwt t_query req param_id (update_handler clk b) ledger events.

Definition delete_event (t_jwt t_query : Z) (req : Request) (param_id : string)
    (ledger : list LoginLog.doc) (events : list Event.doc) : Response * list Event.doc :=
  owned t_jwt t_query req param_id (delete_handler param_id) ledger events.

End Routes.

End EventRoutes.

(* ===================================================================== *)
(** * The ledger as a transition system, and the predicates of the
      properties *)
(* ===================================================================== *)

Module Ledger.

Import Http Passport.

(** Every stored entry expires strictly after it was issued. *)
Definition expiry_after_timestamp (d : LoginLog.doc) : Prop :=
  LoginLog.timestamp d < LoginLog.caducidad d.

Definition ledger_ok (ledger : list LoginLog.doc) : Prop :=
  Forall expiry_after_timestamp ledger.

(** The operations of the source that write to the ledger, with the clock
    readings and the data each one takes. *)
Inductive Op : Type :=
| GoogleLogin (t_sign t0 t1 : Z) (oid : string) (profile : Profile)
| Refresh (t_jwt t_query t_sign t0 t1 : Z) (oid : string) (req : Request)
| LogoutOp (t_jwt t_query t0 t1 t2 : Z) (oid : string) (req : Request)
| Purge (new_Date : Z).

Section Run.

Variable jwt_sign : JwtPayload -> Z -> string.
Variable jwt_verify : string -> Z -> option JwtPayload.
Variable fromAuthHeaderAsBearerToken : option string -> option string.

Definition step (ledger : list LoginLog.doc) (op : Op) : list LoginLog.doc :=
  match op with
  | GoogleLogin t_sign t0 t1 oid profile =>
      snd (google_verify jwt_sign t_sign t0 t1 oid profile ledger)
  | Refresh t_jwt t_query t_sign t0 t1 oid req =>
      snd (AuthRoutes.post_refresh jwt_sign jwt_verify fromAuthHeaderAsBearerToken
             t_jwt t_query t_sign t0 t1 oid req ledger)
  | LogoutOp t_jwt t_query t0 t1 t2 oid req =>
      snd (AuthRoutes.post_logout jwt_verify fromAuthHeaderAsBearerToken
             t_jwt t_query t0 t1 t2 oid req ledger)
  | Purge new_Date => snd (LoginLog.cleanExpiredTokens new_Date ledger)
  end.

Definition run (ops : list Op) (ledger : list LoginLog.doc) : list LoginLog.doc :=
  fold_left step ops ledger.

End Run.


(** The user [email] has a live session at [now]. *)
Definition live_session (email : string) (now : Z) (ledger : list LoginLog.doc) : Prop :=
  exists entry, In entry ledger
    /\ LoginLog.usuario entry = email /\ now < LoginLog.caducidad entry.

(** The serialized form of an entry with a non-empty token, field by
    field. *)
Definition serialized (d : LoginLog.doc) : gmap string Schema.JsVal :=
  <["id" := Schema.JStr (LoginLog._id d)]>
  (<["timestamp" := Schema.JDate (LoginLog.timestamp d)]>
  (<["usuario" := Schema.JStr (LoginLog.usuario d)]>
  (<["caducidad" := Schema.JDate (LoginLog.caducidad d)]>
  (<["tokenPreview" := Schema.JStr (Js.take 10 (LoginLog.token d) ++ "...")%string]>
  (<["provider" := Schema.JStr (LoginLog.provider d)]>
  (<["userAgent" := Schema.JStr (LoginLog.userAgent d)]>
  (<["ipAddress" := Schema.JStr (LoginLog.ipAddress d)]>
  (<["loginType" := Schema.JStr (LoginLog.loginType d)]> ∅)))))))).

Section Rendering.

(** How [JSON.stringify] writes a date and an integer. *)
Variable toISOString : Z -> string.
Variable numberToString : Z -> string.

(** The text of an output field. *)
Definition field_text (v : Schema.JsVal) : string :=
  match v with
  | Schema.JStr s => s
  | Schema.JDate ms => toISOString ms
  | Schema.JInt n => numberToString n
  end.

(** No field of the serialized entry contains the stored token. *)
Definition token_hidden (d : LoginLog.doc) : Prop :=
  map_Forall
    (fun (_ : string) v => Js.includes (LoginLog.token d) (field_text v) = false)
    (LoginLog.toJSON d).

(** The token occurs in none of the fields that are stored beside it. *)
Definition token_apart (d : LoginLog.doc) : Prop :=
  let tok := LoginLog.token d in
  Js.includes tok (LoginLog._id d) = false
  /\ Js.includes tok (toISOString (LoginLog.timestamp d)) = false
  /\ Js.includes tok (LoginLog.usuario d) = false
  /\ Js.includes tok (toISOString (LoginLog.caducidad d)) = false
  /\ Js.includes tok (LoginLog.provider d) = false
  /\ Js.includes tok (LoginLog.userAgent d) = false
  /\ Js.includes tok (LoginLog.ipAddress d) = false
  /\ Js.includes tok (LoginLog.loginType d) = false.

End Rendering.

End Ledger.

Module Geo.

(** [d] lies in the box of half-width [r] around [(qlat, qlon)]. *)
Definition in_box (qlat qlon r : Q) (d : Event.doc) : Prop :=
  (qlat - r <= Event.lat d)%Q /\ (Event.lat d <= qlat + r)%Q
  /\ (qlon - r <= Event.lon d)%Q /\ (Event.lon d <= qlon + r)%Q.

Definition not_later (a b : Event.doc) : Prop := Event.timestamp a <= Event.timestamp b.

End Geo.

(** Concrete data for the examples. *)
Module Sample.

Import Http Passport.

Definition ana : JwtPayload :=
  {| id := "1"; email := "ana@example.com"; name := "Ana"; provider := "google" |}.
Definition eva : JwtPayload :=
  {| id := "2"; email := "eva@example.com"; name := "Eva"; provider := "google" |}.

Definition jwt_sign (p : JwtPayload) (t : Z) : string := ("jwt-of-" ++ email p)%string.

Definition jwt_verify (tok : string) (t : Z) : option JwtPayload :=
  if String.eqb tok "jwt-of-ana@example.com" then Some ana
  else if String.eqb tok "jwt-of-eva@example.com" then Some eva
  else None.

Definition fromAuthHeaderAsBearerToken (h : option string) : option string :=
  match h with
  | Some v => if Js.startsWith "Bearer " v then Some (Js.drop 7 v) else None
  | None => None
  end.

Definition castObjectId (s : string) : option string :=
  if (String.length s =? 24)%nat then Some s else None.

Definition getCoordinatesFromAddress (address : string) : option EventRoutes.Coordinates :=
  Some {| EventRoutes.c_lat := 40; EventRoutes.c_lon := -3; EventRoutes.formatted := address |}.

Definition uploadImage (file : string) : option string := None.

Definition numberToString (n : Z) : string := NilZero.string_of_int (Z.to_int n).

Definition request_of (tok : string) : Request :=
  {| authorization := Some ("Bearer " ++ tok)%string; user_agent := Some "curl"; ip := "::1" |}.

Definition session (mail tok : string) (issued expires : Z) : LoginLog.doc :=
  {| LoginLog._id := "65a000000000000000000001"; LoginLog.timestamp := issued;
     LoginLog.usuario := mail; LoginLog.caducidad := expires; LoginLog.token := tok;
     LoginLog.provider := "google"; LoginLog.userAgent := ""; LoginLog.ipAddress := "";
     LoginLog.loginType := "login" |}.

Definition concert : Event.doc :=
  {| Event._id := "65b000000000000000000001"; Event.nombre := "Concert";
     Event.timestamp := 90000000; Event.lugar := "Madrid";
     Event.lat := 40; Event.lon := -3; Event.organizador := "ana@example.com";
     Event.imagen := None; Event.descripcion := ""; Event.categoria := "musical";
     Event.precio := 0; Event.capacidad := None |}.

Definition empty_update : EventRoutes.UpdateBody :=
  {| EventRoutes.u_nombre := None; EventRoutes.u_timestamp := None;
     EventRoutes.u_lugar := None; EventRoutes.u_descripcion := None;
     EventRoutes.u_categoria := None; EventRoutes.u_precio := None;
     EventRoutes.u_capacidad := None; EventRoutes.u_file := None |}.

Definition move_to (ts : Z) : EventRoutes.UpdateBody :=
  {| EventRoutes.u_nombre := None; EventRoutes.u_timestamp := Some ts;
     EventRoutes.u_lugar := None; EventRoutes.u_descripcion := None;
     EventRoutes.u_categoria := None; EventRoutes.u_precio := None;
     EventRoutes.u_capacidad := None; EventRoutes.u_file := None |}.

End Sample.

(* ===================================================================== *)
(** * models/LoginLog.js: the query statics, and routes/logs.js *)
(* ===================================================================== *)

Module LogQueries.

Import Schema.

(** [.sort({ timestamp: -1 })] *)
Fixpoint insert_desc (d : LoginLog.doc) (l : list LoginLog.doc) : list LoginLog.doc :=
  match l with
  | [] => [d]
  | e :: l' =>
      if LoginLog.timestamp e <=? LoginLog.timestamp d then d :: e :: l'
      else e :: insert_desc d l'
  end.

Fixpoint sort_desc (l : list LoginLog.doc) : list LoginLog.doc :=
  match l with
  | [] => []
  | d :: l' => insert_desc d (sort_desc l')
  end.

(** [.limit(n)]: a limit of 0 is no limit. *)
Definition limit {A : Type} (n : nat) (l : list A) : list A :=
  match n with
  | O => l
  | _ => firstn n l
  end.

(** The filter [{ usuario: email }], cast with the schema. *)
Definition by_user (email : string) (d : LoginLog.doc) : bool :=
  String.eqb (LoginLog.usuario d) (Js.toLowerCase email).

(** [.select('-token')]: the document as loaded, without its token. *)
Definition select_no_token (d : LoginLog.doc) : gmap string JsVal :=
  delete "token" (LoginLog.toObject d).

(** The documents that [getRecentLogs(limit = 100)] finds, before the
    projection. *)
Definition recent_docs (n : option nat) (coll : list LoginLog.doc) : list LoginLog.doc :=
  limit (default 100%nat n) (sort_desc coll).

(** [LoginLog.getRecentLogs(limit = 100)] *)
Definition getRecentLogs (n : option nat) (coll : list LoginLog.doc)
  : list (gmap string JsVal) :=
  List.map select_no_token (recent_docs n coll).

(** The documents that [getUserLogs(email, limit = 50)] finds. *)
Definition user_docs (email : string) (n : option nat) (coll : list LoginLog.doc)
  : list LoginLog.doc :=
  limit (default 50%nat n) (sort_desc (List.filter (by_user email) coll)).

(** [LoginLog.getUserLogs(email, limit = 50)] *)
Definition getUserLogs (email : string) (n : option nat) (coll : list LoginLog.doc)
  : list (gmap string JsVal) :=
  List.map select_no_token (user_docs email n coll).

(** [res.json] of a list of logs: the [toJSON] transform of each. *)
Definition json_logs (logs : list (gmap string JsVal)) : list (gmap string JsVal) :=
  List.map LoginLog.transform logs.

(** The [$group] stage on a string path followed by the [reduce] of the
    route: the number of documents for each value of the path. *)
Fixpoint count_by (key : LoginLog.doc -> string) (coll : list LoginLog.doc)
  : gmap string nat :=
  match coll with
  | [] => ∅
  | d :: coll' =>
      let acc := count_by key coll' in
      <[key d := S (default 0%nat (acc !! key d))]> acc
  end.

End LogQueries.

Module LogRoutes.

Import Schema Http Passport LogQueries.

(** The [pagination] object of [GET /api/logs]. *)
Record Pagination : Type := mkPagination {
  total : nat;
  page : positive;
  page_limit : positive;
  totalPages : nat;
  hasNext : bool;
  hasPrev : bool
}.

(** [Math.ceil(total / pageLimit)] *)
Definition ceil_div (total pageLimit : nat) : nat :=
  ((total + pageLimit - 1) / pageLimit)%nat.

(** The handler of [GET /api/logs], on query parameters [limit] and [page]
    that are decimal numerals of positive integers ([None] when left out)
    and the optional [user]. *)
Definition get_logs (q_limit q_page : option positive) (q_user : option string)
    (coll : list LoginLog.doc) : list (gmap string JsVal) * Pagination :=
  let pageLimit := Pos.min (default 100%positive q_limit) 1000 in
  let p := default 1%positive q_page in
  let skip := ((Pos.to_nat p - 1) * Pos.to_nat pageLimit)%nat in
  let matching :=
    match q_user with
    | Some user =>
        if Js.truthy user then List.filter (by_user (Js.toLowerCase user)) coll else coll
    | None => coll
    end in
  let logs :=
    List.map select_no_token
      (limit (Pos.to_nat pageLimit) (skipn skip (sort_desc matching))) in
  let n := List.length matching in
  (json_logs logs,
   {| total := n;
      page := p;
      page_limit := pageLimit;
      totalPages := ceil_div n (Pos.to_nat pageLimit);
      hasNext := (skip + Pos.to_nat pageLimit <? n)%nat;
      hasPrev := (1 <? p)%positive |}).



Section Authenticated.

Variable jwt_verify : string -> Z -> option JwtPayload.
Variable fromAuthHeaderAsBearerToken : option string -> option string.

(** [GET /api/auth/profile], behind [requireAuth]: the user and the last
    five logins. *)
Definition get_profile (t_jwt t_query : Z) (req : Request) (coll : list LoginLog.doc)
  : Response + (JwtPayload * list (gmap string JsVal)) :=
  match requireAuth jwt_verify fromAuthHeaderAsBearerToken t_jwt t_query req coll with
  | inl rejection => inl rejection
  | inr user => inr (user, json_logs (getUserLogs (email user) (Some 5%nat) coll))
  end.

End Authenticated.

End LogRoutes.

(* ===================================================================== *)
(** * routes/events.js: the read routes, and the image identifier *)
(* ===================================================================== *)

Module EventQueries.

Import Http Passport.

(** [Event.find({ organizador: email }).sort({ timestamp: 1 })], the filter
    cast with the schema. *)
Definition by_organizer (email : string) (d : Event.doc) : bool :=
  String.eqb (Event.organizador d) (Js.toLowerCase email).

Definition my_events (email : string) (events : list Event.doc) : list Event.doc :=
  Event.sort_by_timestamp (List.filter (by_organizer email) events).

(** [Event.find({ timestamp: { $gte: new Date() } }).sort({ timestamp: 1 })
    .limit(100)] *)
Definition upcoming (new_Date : Z) (events : list Event.doc) : list Event.doc :=
  firstn 100 (Event.sort_by_timestamp
                (List.filter (fun d => new_Date <=? Event.timestamp d) events)).

(** The answer of a read route: [{ count, events }] or an error. *)
Inductive Listing : Type :=
| Listed (count : nat) (events : list Event.doc)
| Refused (status : nat) (error : string).

Definition listed (events : list Event.doc) : Listing :=
  Listed (List.length events) events.

Record Query : Type := mkQuery {
  q_lat : option string;
  q_lon : option string;
  q_address : option string
}.

(** The answer of [GET /api/events/:id]. *)
Inductive Found : Type :=
| FoundEvent (event : Event.doc)
| NotFoundEvent (status : nat) (error : string).

(** [event.imagen.split('/').pop().split('.')[0]] *)
Fixpoint before_first (c : ascii) (s : string) : string :=
  match s with
  | EmptyString => EmptyString
  | String a s' => if Ascii.eqb a c then EmptyString else String a (before_first c s')
  end.

Definition publicId (imagen : string) : string :=
  before_first "." (Js.after_last "/" imagen).

(** The argument of [deleteImage]: [`eventos/${publicId}`]. *)
Definition image_to_delete (imagen : string) : string :=
  ("eventos/" ++ publicId imagen)%string.

(** The [toJSON] transform of the event schema, on a plain object with
    values of any kind. *)
Definition transform {V : Type} (ret : gmap string V) : gmap string V :=
  let ret1 :=
    match ret !! "_id" with
    | Some v => <["id" := v]> ret
    | None => delete "id" ret
    end in
  delete "__v" (delete "_id" ret1).

Section Routes.

Variable jwt_verify : string -> Z -> option JwtPayload.
Variable fromAuthHeaderAsBearerToken : option string -> option string.
Variable castObjectId : string -> option string.
Variable getCoordinatesFromAddress : string -> option EventRoutes.Coordinates.
(** [parseFloat]; [None] is [NaN]. *)
Variable parseFloat : string -> option Q.

(** The handler of [GET /api/events/user/my-events], behind
    [requireAuth]. *)
Definition get_my_events (t_jwt t_query : Z) (req : Request)
    (ledger : list LoginLog.doc) (events : list Event.doc) : Response + Listing :=
  match requireAuth jwt_verify fromAuthHeaderAsBearerToken t_jwt t_query req ledger with
  | inl rejection => inl rejection
  | inr user => inr (listed (my_events (email user) events))
  end.

(** The handler of [GET /api/events]. *)
Definition get_events (new_Date : Z) (q : Query) (events : list Event.doc) : Listing :=
  if EventRoutes.truthy_opt (q_lat q) && EventRoutes.truthy_opt (q_lon q) then
    match parseFloat (EventRoutes.or_else (q_lat q) ""),
          parseFloat (EventRoutes.or_else (q_lon q) "") with
    | Some latitude, Some longitude =>
        listed (Event.findNearby new_Date latitude longitude None events)
    | _, _ => Refused 400 "Coordenadas inválidas"
    end
  else if EventRoutes.truthy_opt (q_address q) then
    match getCoordinatesFromAddress (EventRoutes.or_else (q_address q) "") with
    | Some coords =>
        listed (Event.findNearby new_Date (EventRoutes.c_lat coords)
                  (EventRoutes.c_lon coords) None events)
    | None => Refused 400 "No se pudo procesar la dirección"
    end
  else listed (upcoming new_Date events).

(** The handler of [GET /api/events/:id]. *)
Definition get_event (param_id : string) (events : list Event.doc) : Found :=
  match castObjectId param_id with
  | None => NotFoundEvent 400 "ID de evento inválido"
  | Some oid =>
      match Event.findById oid events with
      | Some event => FoundEvent event
      | None => NotFoundEvent 404 "Evento no encontrado"
      end
  end.

End Routes.

End EventQueries.

(* ===================================================================== *)
(** * The server file: the CORS origin check *)
(* ===================================================================== *)

Module Server.

(** [[..., process.env.FRONTEND_URL].filter(Boolean)] *)
Definition allowedOrigins (FRONTEND_URL : option string) : list string :=
  List.filter Js.truthy
    ["https://eventual-frontend.vercel.app"; "https://eventual.vercel.app";
     default "" FRONTEND_URL].

(** The [origin] function of the CORS options: the second argument of
    [callback].  [isProduction] is [NODE_ENV === 'production']; a request
    without an [Origin] header has [origin = None]. *)
Definition cors_origin (isProduction : bool) (FRONTEND_URL : option string)
    (origin : option string) : bool :=
  match origin with
  | None => true
  | Some o =>
      if negb (Js.truthy o) then true
      else if negb isProduction && Js.includes "localhost" o then true
      else if isProduction
              && existsb (fun allowed => String.eqb o allowed || Js.includes "vercel.app" o)
                   (allowedOrigins FRONTEND_URL)
      then true
      else negb isProduction
  end.

End Server.

(* ===================================================================== *)
(** * Predicates of the further properties *)
(* ===================================================================== *)

Module Shape.

(** Every character class of the pattern lies within [q]. *)
Fixpoint classes_within (q : ascii -> bool) (r : Regex.t) : Prop :=
  match r with
  | Regex.Void | Regex.Eps => True
  | Regex.Class p => forall c, p c = true -> q c = true
  | Regex.Cat r1 r2 | Regex.Alt r1 r2 => classes_within q r1 /\ classes_within q r2
  | Regex.Star r1 => classes_within q r1
  end.

(** A word character, a dot or a dash. *)
Definition address_char (c : ascii) : bool :=
  Js.is_word c || Ascii.eqb c "." || Ascii.eqb c "-".

(** The answers about an origin that contains [vercel.app], that is the
    configured front end, or that is empty. *)
Definition production_origin (FRONTEND_URL : option string) (o : string) : Prop :=
  o = "" \/ Js.includes "vercel.app" o = true
  \/ (o <> "" /\ FRONTEND_URL = Some o).

End Shape.

(* ===================================================================== *)
(** * Properties *)
(* ===================================================================== *)

(** ** Strings *)

Module JsFacts.

Import Js.

Lemma append_assoc (a b c : string) : ((a ++ b) ++ c = a ++ (b ++ c))%string.
Proof. induction a as [|x a IH]; simpl; [reflexivity | now rewrite IH]. Qed.

Lemma append_nil_r (a : string) : (a ++ "")%string = a.
Proof. induction a as [|x a IH]; simpl; [reflexivity | now rewrite IH]. Qed.

Lemma length_append (a b : string) :
  String.length (a ++ b)%string = (String.length a + String.length b)%nat.
Proof. induction a as [|x a IH]; simpl; [reflexivity | now rewrite IH]. Qed.

Lemma has_char_append c (a b : string) :
  has_char c (a ++ b)%string = has_char c a || has_char c b.
Proof.
  induction a as [|x a IH]; simpl; [reflexivity|].
  rewrite IH. now rewrite orb_assoc.
Qed.

Lemma after_last_no_char c (s : string) : has_char c s = false -> after_last c s = s.
Proof.
  destruct s as [|a s]; simpl; [reflexivity|].
  intros H. apply orb_false_iff in H as [Ha Hs]. now rewrite Hs, Ha.
Qed.

(** What follows the last occurrence, when the tail is known to be free of
    the character. *)
Lemma after_last_append c (p w : string) :
  has_char c w = false -> after_last c (p ++ String c w)%string = w.
Proof.
  intros Hw. induction p as [|a p IH]; simpl.
  - rewrite Hw. now rewrite Ascii.eqb_refl.
  - rewrite has_char_append. simpl. rewrite Ascii.eqb_refl. simpl.
    rewrite orb_true_r. exact IH.
Qed.

Lemma word_is_not_dot a : is_word a = true -> Ascii.eqb a "." = false.
Proof.
  intros H. destruct (Ascii.eqb_spec a "."); [subst; discriminate H | reflexivity].
Qed.

Lemma all_word_no_dot (w : string) : all_chars is_word w = true -> has_char "." w = false.
Proof.
  induction w as [|a w IH]; simpl; [reflexivity|].
  intros H. apply andb_true_iff in H as [Ha Hw].
  rewrite (word_is_not_dot _ Ha). now apply IH.
Qed.

End JsFacts.

(** ** Regular expressions: the matcher decides the language *)

Module RegexFacts.

Import Regex.

Lemma nullable_sound r : nullable r = true -> Matches r "".
Proof.
  induction r as [| |p|r1 IH1 r2 IH2|r1 IH1 r2 IH2|r IH]; simpl; intros H;
    try discriminate.
  - constructor.
  - apply andb_true_iff in H as [H1 H2].
    change "" with ("" ++ "")%string. constructor; auto.
  - apply orb_true_iff in H as [H1|H2]; [apply MAltL | apply MAltR]; auto.
  - constructor.
Qed.

Lemma deriv_sound c r : forall s, Matches (deriv c r) s -> Matches r (String c s).
Proof.
  induction r as [| |p|r1 IH1 r2 IH2|r1 IH1 r2 IH2|r IH]; simpl; intros s H.
  - inversion H.
  - inversion H.
  - destruct (p c) eqn:Hp; inversion H; subst. now constructor.
  - destruct (nullable r1) eqn:Hn.
    + inversion H as [| | | ? ? ? HL | ? ? ? HR | |]; subst.
      * inversion HL; subst.
        change (String c (s1 ++ s2)) with (String c s1 ++ s2)%string.
        constructor; auto.
      * change (String c s) with ("" ++ String c s)%string.
        constructor; auto using nullable_sound.
    + inversion H; subst.
      change (String c (s1 ++ s2)) with (String c s1 ++ s2)%string.
      constructor; auto.
  - inversion H; subst; [apply MAltL | apply MAltR]; auto.
  - inversion H; subst.
    change (String c (s1 ++ s2)) with (String c s1 ++ s2)%string.
    constructor; auto.
Qed.

Lemma test_sound r s : test r s = true -> Matches r s.
Proof.
  revert r. induction s as [|c s IH]; simpl; intros r H.
  - now apply nullable_sound.
  - apply deriv_sound. now apply IH.
Qed.

Lemma append_nil_inv (a b : string) : (a ++ b)%string = "" -> a = "" /\ b = "".
Proof. destruct a; simpl; [auto | discriminate]. Qed.

Lemma nullable_complete r s : Matches r s -> s = "" -> nullable r = true.
Proof.
  induction 1 as [|p c Hp|r1 r2 s1 s2 H1 IH1 H2 IH2|r1 r2 s H IH|r1 r2 s H IH
                 |r|r s1 s2 H1 IH1 H2 IH2]; intros E; simpl; try reflexivity.
  - discriminate.
  - apply append_nil_inv in E as [-> ->]. now rewrite IH1, IH2.
  - now rewrite IH.
  - rewrite IH by assumption. apply orb_true_r.
Qed.

Lemma deriv_complete c r s0 :
  Matches r s0 -> forall s, s0 = String c s -> Matches (deriv c r) s.
Proof.
  induction 1 as [|p c' Hp|r1 r2 s1 s2 H1 IH1 H2 IH2|r1 r2 s' H IH|r1 r2 s' H IH
                 |r|r s1 s2 H1 IH1 H2 IH2]; intros s E; simpl.
  - discriminate.
  - injection E as -> <-. rewrite Hp. constructor.
  - destruct s1 as [|a s1]; simpl in E.
    + rewrite (nullable_complete _ _ H1 eq_refl). apply MAltR. now apply IH2.
    + injection E as -> <-.
      destruct (nullable r1); [apply MAltL|]; constructor; auto.
  - apply MAltL. now apply IH.
  - apply MAltR. now apply IH.
  - discriminate.
  - destruct s1 as [|a s1]; simpl in E.
    + now apply IH2.
    + injection E as -> <-. constructor; auto.
Qed.

Lemma test_complete r s : Matches r s -> test r s = true.
Proof.
  revert r. induction s as [|c s IH]; simpl; intros r H.
  - now apply (nullable_complete r "").
  - apply IH. now apply (deriv_complete c r (String c s)).
Qed.

(** [test] decides the language of the pattern. *)
Lemma test_iff r s : test r s = true <-> Matches r s.
Proof. split; [apply test_sound | apply test_complete]. Qed.

(** A non-empty iteration ends with a match of the iterated pattern. *)
Lemma star_last r s :
  Matches (Star r) s ->
  s = "" \/ exists p x, s = (p ++ x)%string /\ Matches r x.
Proof.
  intros H. remember (Star r) as sr eqn:E.
  induction H as [| | | | | r0 | r0 s1 s2 H1 _ H2 IH2]; try discriminate.
  - now left.
  - injection E as ->. right.
    destruct (IH2 eq_refl) as [-> | (p & x & -> & Hx)].
    + exists "", s1. now rewrite JsFacts.append_nil_r.
    + exists (s1 ++ p)%string, x. now rewrite JsFacts.append_assoc.
Qed.

Lemma plus_last r s :
  Matches (Plus r) s -> exists p x, s = (p ++ x)%string /\ Matches r x.
Proof.
  unfold Plus. intros H. inversion H as [| |? ? s1 s2 H1 H2| | | |]; subst.
  destruct (star_last _ _ H2) as [-> | (p & x & -> & Hx)].
  - exists "", s1. now rewrite JsFacts.append_nil_r.
  - exists (s1 ++ p)%string, x. now rewrite JsFacts.append_assoc.
Qed.

End RegexFacts.

(** ** The e-mail pattern *)

Module EmailFacts.

Import Regex Schema.

Lemma class_shape p x : Matches (Class p) x -> exists c, x = String c "" /\ p c = true.
Proof. intros H. inversion H; subst. eauto. Qed.

Lemma cat_shape r1 r2 x :
  Matches (Cat r1 r2) x -> exists a b, x = (a ++ b)%string /\ Matches r1 a /\ Matches r2 b.
Proof. intros H. inversion H; subst. eauto. Qed.

Lemma opt_shape r x : Matches (Opt r) x -> x = "" \/ Matches r x.
Proof.
  unfold Opt. intros H.
  inversion H as [| | | ? ? ? HL | ? ? ? HR | |]; subst; [left | right]; auto.
  now inversion HL.
Qed.

(** A match of [(\.\w{2,3})] is a dot followed by two or three word
    characters. *)
Lemma tld_group_shape x :
  Matches tld_group x -> exists w, x = String "." w /\ two_or_three_word_chars w.
Proof.
  unfold tld_group, Rep23. intros H.
  apply cat_shape in H as (d & r & -> & Hd & Hr).
  apply class_shape in Hd as (c & -> & Hc).
  apply Ascii.eqb_eq in Hc as ->.
  apply cat_shape in Hr as (a & r' & -> & Ha & Hr').
  apply class_shape in Ha as (ca & -> & Hca).
  apply cat_shape in Hr' as (b & o & -> & Hb & Ho).
  apply class_shape in Hb as (cb & -> & Hcb).
  apply opt_shape in Ho as [-> | Ho].
  - exists (String ca (String cb "")). split; [reflexivity|].
    split; [now left | simpl; now rewrite Hca, Hcb].
  - apply class_shape in Ho as (cc & -> & Hcc).
    exists (String ca (String cb (String cc ""))). split; [reflexivity|].
    split; [now right | simpl; now rewrite Hca, Hcb, Hcc].
Qed.

Lemma email_pattern_final_label s :
  Matches email_pattern s -> two_or_three_word_chars (final_label s).
Proof.
  unfold email_pattern. intros H.
  apply cat_shape in H as (a & r1 & -> & _ & H).
  apply cat_shape in H as (b & r2 & -> & _ & H).
  apply cat_shape in H as (c & g & -> & _ & H).
  apply RegexFacts.plus_last in H as (p & x & -> & Hx).
  apply tld_group_shape in Hx as (w & -> & Hw).
  unfold final_label.
  replace (a ++ b ++ c ++ p ++ String "." w)%string
    with ((a ++ b ++ c ++ p) ++ String "." w)%string
    by now rewrite !JsFacts.append_assoc.
  rewrite JsFacts.after_last_append; [exact Hw|].
  apply JsFacts.all_word_no_dot, Hw.
Qed.

Lemma email_validator_final_label email :
  email_validator email = true -> two_or_three_word_chars (final_label email).
Proof.
  intros H. apply email_pattern_final_label, RegexFacts.test_sound, H.
Qed.

Lemma event_validate_organizador now d :
  email_validator (Event.organizador d) = false ->
  exists msg, In ("organizador", msg) (Event.validate now d).
Proof.
  intros H. unfold Event.validate.
  destruct (Js.truthy (Event.organizador d)) eqn:Ht.
  - exists "Email inválido". rewrite !in_app_iff. do 5 right. left.
    cbn [run_validators]. rewrite H. now left.
  - exists "El email del organizador es obligatorio".
    rewrite !in_app_iff. do 5 right. left.
    cbn [run_validators]. now left.
Qed.

Lemma loginlog_validate_usuario d :
  email_validator (LoginLog.usuario d) = false ->
  exists msg, In ("usuario", msg) (LoginLog.validate d).
Proof.
  intros H. unfold LoginLog.validate.
  destruct (Js.truthy (LoginLog.usuario d)) eqn:Ht.
  - exists "Email inválido". rewrite !in_app_iff. left.
    cbn [run_validators]. rewrite H. now left.
  - exists "El email del usuario es obligatorio".
    rewrite !in_app_iff. left.
    cbn [run_validators]. now left.
Qed.

(** C10.  The e-mail validator of [organizador] and [usuario] accepts
    only addresses whose final domain label is two or three word
    characters; [ana@example.info] is therefore rejected, and saving an
    event or a ledger entry whose address the validator rejects fails
    with a [ValidationError] on that path. *)
Theorem email_validator_short_final_label :
  (forall email, email_validator email = true ->
     two_or_three_word_chars (final_label email))
  /\ email_validator "ana@example.info" = false
  /\ (forall isNew clk d coll,
        email_validator (Event.organizador d) = false ->
        exists errs msg,
          Event.save isNew clk d coll = inl (ValidationError errs)
          /\ In ("organizador", msg) errs)
  /\ (forall d coll,
        email_validator (LoginLog.usuario d) = false ->
        exists errs msg,
          LoginLog.save d coll = inl (ValidationError errs)
          /\ In ("usuario", msg) errs).
Proof.
  split; [exact email_validator_final_label|].
  split; [reflexivity|].
  split.
  - intros isNew clk d coll H.
    destruct (event_validate_organizador (Event.at_validate clk) d H) as [msg Hin].
    unfold Event.save.
    destruct (Event.validate (Event.at_validate clk) d) as [|e errs] eqn:E;
      [contradiction Hin | eauto].
  - intros d coll H.
    destruct (loginlog_validate_usuario d H) as [msg Hin].
    unfold LoginLog.save.
    destruct (LoginLog.validate d) as [|e errs] eqn:E; [contradiction Hin | eauto].
Qed.

End EmailFacts.

(** ** The login ledger *)

Module LedgerFacts.

Import Schema Http Passport Ledger.

Lemma thirty_days_pos : 0 < LoginLog.thirty_days.
Proof. reflexivity. Qed.

Lemma pre_save_timestamp d : LoginLog.timestamp (LoginLog.pre_save d) = LoginLog.timestamp d.
Proof. unfold LoginLog.pre_save. now destruct (_ >? _). Qed.

Lemma pre_save_caducidad d :
  LoginLog.caducidad (LoginLog.pre_save d)
  = Z.min (LoginLog.caducidad d) (LoginLog.timestamp d + LoginLog.thirty_days).
Proof.
  unfold LoginLog.pre_save.
  destruct (Z.gtb_spec (LoginLog.caducidad d) (LoginLog.timestamp d + LoginLog.thirty_days));
    simpl; lia.
Qed.

Lemma pre_save_token d : LoginLog.token (LoginLog.pre_save d) = LoginLog.token d.
Proof. unfold LoginLog.pre_save. now destruct (_ >? _). Qed.

Lemma pre_save_loginType d : LoginLog.loginType (LoginLog.pre_save d) = LoginLog.loginType d.
Proof. unfold LoginLog.pre_save. now destruct (_ >? _). Qed.

(** A document that passes validation expires after its timestamp. *)
Lemma validate_nil_caducidad d :
  LoginLog.validate d = [] -> LoginLog.timestamp d < LoginLog.caducidad d.
Proof.
  unfold LoginLog.validate. intros H.
  apply app_eq_nil in H as [_ H]. apply app_eq_nil in H as [H _].
  cbn [run_validators] in H. unfold LoginLog.caducidad_validator in H.
  destruct (Z.gtb_spec (LoginLog.caducidad d) (LoginLog.timestamp d)); [lia | discriminate].
Qed.

Lemma save_valid d coll :
  LoginLog.validate d = [] ->
  LoginLog.save d coll = inr (LoginLog.pre_save d, coll ++ [LoginLog.pre_save d]).
Proof. unfold LoginLog.save. now intros ->. Qed.

Lemma save_inr d coll stored coll' :
  LoginLog.save d coll = inr (stored, coll') ->
  LoginLog.validate d = [] /\ stored = LoginLog.pre_save d /\ coll' = coll ++ [stored].
Proof.
  unfold LoginLog.save. destruct (LoginLog.validate d); [|discriminate].
  intros [= <- <-]. auto.
Qed.

(** A rejected save leaves the collection alone by construction; an
    accepted one stores an entry that expires after its timestamp. *)
Lemma save_stores_ok d coll stored coll' :
  LoginLog.save d coll = inr (stored, coll') -> expiry_after_timestamp stored.
Proof.
  intros H. apply save_inr in H as (Hv & -> & _).
  apply validate_nil_caducidad in Hv. unfold expiry_after_timestamp.
  rewrite pre_save_timestamp, pre_save_caducidad.
  pose proof thirty_days_pos. lia.
Qed.

Lemma save_preserves_ok d coll :
  ledger_ok coll ->
  ledger_ok match LoginLog.save d coll with inr (_, coll') => coll' | inl _ => coll end.
Proof.
  intros Hok. destruct (LoginLog.save d coll) as [err | [stored coll']] eqn:E; [exact Hok|].
  pose proof (save_stores_ok _ _ _ _ E) as Hs.
  apply save_inr in E as (_ & _ & ->).
  apply Forall_app. split; [exact Hok | now constructor].
Qed.

Lemma purge_preserves_ok now coll :
  ledger_ok coll -> ledger_ok (snd (LoginLog.cleanExpiredTokens now coll)).
Proof.
  unfold ledger_ok. rewrite !List.Forall_forall. simpl. intros H d Hd.
  apply filter_In in Hd as [Hd _]. auto.
Qed.

(** C3.  A ledger entry that passes validation, with requested expiry
    [timestamp + ttl], is stored with expiry
    [min (timestamp + ttl) (timestamp + 30 days)]: exactly
    [timestamp + 30 days] when [ttl] exceeds thirty days, and exactly
    [timestamp + 48 hours] when [ttl] is 48 hours. *)
Theorem stored_expiry_is_clamped d coll ttl :
  LoginLog.validate d = [] ->
  LoginLog.caducidad d = LoginLog.timestamp d + ttl ->
  exists stored,
    LoginLog.save d coll = inr (stored, coll ++ [stored])
    /\ LoginLog.timestamp stored = LoginLog.timestamp d
    /\ LoginLog.caducidad stored
       = Z.min (LoginLog.timestamp d + ttl) (LoginLog.timestamp d + 30 * 24 * 60 * 60 * 1000)
    /\ (30 * 24 * 60 * 60 * 1000 < ttl ->
        LoginLog.caducidad stored = LoginLog.timestamp d + 30 * 24 * 60 * 60 * 1000)
    /\ (ttl = 48 * 60 * 60 * 1000 ->
        LoginLog.caducidad stored = LoginLog.timestamp d + 48 * 60 * 60 * 1000).
Proof.
  intros Hv Httl. exists (LoginLog.pre_save d).
  split; [now apply save_valid|].
  split; [apply pre_save_timestamp|].
  rewrite pre_save_caducidad, Httl. unfold LoginLog.thirty_days.
  repeat split; lia.
Qed.

Lemma stored_expiry_is_clamped_witness :
  exists stored,
    LoginLog.save (Sample.session "ana@example.com" "t" 1000 (1000 + 31 * 24 * 60 * 60 * 1000)) []
      = inr (stored, [] ++ [stored])
    /\ LoginLog.timestamp stored = 1000
    /\ LoginLog.caducidad stored
       = Z.min (1000 + 31 * 24 * 60 * 60 * 1000) (1000 + 30 * 24 * 60 * 60 * 1000)
    /\ (30 * 24 * 60 * 60 * 1000 < 31 * 24 * 60 * 60 * 1000 ->
        LoginLog.caducidad stored = 1000 + 30 * 24 * 60 * 60 * 1000)
    /\ (31 * 24 * 60 * 60 * 1000 = 48 * 60 * 60 * 1000 ->
        LoginLog.caducidad stored = 1000 + 48 * 60 * 60 * 1000).
Proof.
  apply (stored_expiry_is_clamped
           (Sample.session "ana@example.com" "t" 1000 (1000 + 31 * 24 * 60 * 60 * 1000))
           [] (31 * 24 * 60 * 60 * 1000)).
  - vm_compute. reflexivity.
  - reflexivity.
Defined.

(** The 48-hour case on a concrete entry: stored as requested. *)
Example expiry_48h_unclamped :
  LoginLog.save (Sample.session "ana@example.com" "t" 1000 (1000 + 48 * 60 * 60 * 1000)) []
  = inr (Sample.session "ana@example.com" "t" 1000 172801000,
         [Sample.session "ana@example.com" "t" 1000 172801000]).
Proof. vm_compute. reflexivity. Qed.

(** [cleanExpiredTokens] splits the collection. *)
Lemma filter_split {A} (f : A -> bool) (l : list A) :
  Permutation l (List.filter f l ++ List.filter (fun x => negb (f x)) l).
Proof.
  induction l as [|a l IH]; simpl; [constructor|].
  destruct (f a); simpl.
  - now constructor.
  - now apply Permutation_cons_app.
Qed.

Lemma filter_none {A} (f : A -> bool) (l : list A) :
  Forall (fun x => f x = false) l -> List.filter f l = [].
Proof.
  induction 1 as [|a l Ha _ IH]; simpl; [reflexivity|]. now rewrite Ha.
Qed.

Lemma filter_all {A} (f : A -> bool) (l : list A) :
  Forall (fun x => f x = true) l -> List.filter f l = l.
Proof.
  induction 1 as [|a l Ha _ IH]; simpl; [reflexivity|]. now rewrite Ha, IH.
Qed.

Lemma filter_holds {A} (f : A -> bool) (l : list A) :
  Forall (fun x => f x = true) (List.filter f l).
Proof. apply List.Forall_forall. intros x Hx. now apply filter_In in Hx. Qed.

(** C7.  [cleanExpiredTokens] removes exactly the entries whose expiry is
    strictly before the instant of the call: the collection is the
    removed entries together with the remaining ones, every removed entry
    had expired, no remaining entry has, the count is that of the removed
    entries, and a second call at the same instant removes nothing. *)
Theorem cleanExpiredTokens_exact now coll :
  let removed := List.filter (LoginLog.expired now) coll in
  let count := fst (LoginLog.cleanExpiredTokens now coll) in
  let rest := snd (LoginLog.cleanExpiredTokens now coll) in
  Permutation coll (removed ++ rest)
  /\ Forall (fun d => LoginLog.caducidad d < now) removed
  /\ Forall (fun d => now <= LoginLog.caducidad d) rest
  /\ (forall d, In d rest <-> In d coll /\ now <= LoginLog.caducidad d)
  /\ count = List.length removed
  /\ LoginLog.cleanExpiredTokens now rest = (0%nat, rest).
Proof.
  cbn zeta. simpl fst. simpl snd.
  assert (Hrest : forall d, In d (List.filter (fun d => negb (LoginLog.expired now d)) coll)
                    <-> In d coll /\ now <= LoginLog.caducidad d).
  { intros d. rewrite filter_In. unfold LoginLog.expired.
    destruct (Z.ltb_spec (LoginLog.caducidad d) now); simpl; intuition (try lia; try discriminate). }
  split; [apply filter_split|].
  split.
  { apply List.Forall_forall. intros d Hd. apply filter_In in Hd as [_ Hd].
    unfold LoginLog.expired in Hd. lia. }
  split; [apply List.Forall_forall; intros d Hd; now apply Hrest in Hd|].
  split; [exact Hrest|].
  split; [reflexivity|].
  unfold LoginLog.cleanExpiredTokens. f_equal.
  - rewrite filter_none; [reflexivity|].
    apply List.Forall_forall. intros d Hd. apply filter_In in Hd as [_ Hd].
    now apply negb_true_iff.
  - apply filter_all. apply (filter_holds (fun d => negb (LoginLog.expired now d))).
Qed.

End LedgerFacts.

(** ** The operations that write to the ledger *)

Module LedgerOps.

Import Schema Http Passport Ledger LedgerFacts.

(** The goal is the invariant of the ledger that a handler returns
    around one [save]: by cases on the outcome of that [save]. *)
Ltac by_save Hok :=
  match goal with
  | |- context [LoginLog.save ?d ?ledger] =>
      let H := fresh "Hsaved" in
      pose proof (save_preserves_ok d ledger Hok) as H;
      destruct (LoginLog.save d ledger) as [?|[? ?]]; exact H
  end.

Section Ops.

Variable jwt_sign : JwtPayload -> Z -> string.
Variable jwt_verify : string -> Z -> option JwtPayload.
Variable fromAuthHeaderAsBearerToken : option string -> option string.

Lemma google_verify_ok t_sign t0 t1 oid profile ledger :
  ledger_ok ledger ->
  ledger_ok (snd (google_verify jwt_sign t_sign t0 t1 oid profile ledger)).
Proof.
  intros Hok. unfold google_verify.
  destruct (emails profile) as [|mail ?]; [exact Hok|].
  destruct (photos profile) as [|photo ?]; [exact Hok|].
  by_save Hok.
Qed.

Lemma authenticated_ok t_jwt t_query req handler ledger :
  (forall user, ledger_ok (snd (handler user ledger))) ->
  ledger_ok ledger ->
  ledger_ok (snd (AuthRoutes.authenticated jwt_verify fromAuthHeaderAsBearerToken
                    t_jwt t_query req handler ledger)).
Proof.
  intros Hh Hok. unfold AuthRoutes.authenticated.
  destruct (requireAuth _ _ _ _ _ _) as [rej|user]; [exact Hok | apply Hh].
Qed.

Lemma refresh_handler_ok t_sign t0 t1 oid req user ledger :
  ledger_ok ledger ->
  ledger_ok (snd (AuthRoutes.refresh_handler jwt_sign t_sign t0 t1 oid req user ledger)).
Proof.
  intros Hok. unfold AuthRoutes.refresh_handler.
  by_save Hok.
Qed.

Lemma logout_handler_ok t0 t1 t2 oid req user ledger :
  ledger_ok ledger ->
  ledger_ok (snd (AuthRoutes.logout_handler t0 t1 t2 oid req user ledger)).
Proof.
  intros Hok. unfold AuthRoutes.logout_handler.
  by_save Hok.
Qed.

Lemma step_ok ledger op :
  ledger_ok ledger ->
  ledger_ok (step jwt_sign jwt_verify fromAuthHeaderAsBearerToken ledger op).
Proof.
  intros Hok. destruct op; simpl.
  - now apply google_verify_ok.
  - apply authenticated_ok; [|exact Hok]. intros user. now apply refresh_handler_ok.
  - apply authenticated_ok; [|exact Hok]. intros user. now apply logout_handler_ok.
  - now apply purge_preserves_ok.
Qed.

(** C6.  Every entry that [save] stores has its expiry strictly after its
    timestamp, clamped or not, and the property of the whole ledger is
    kept by every sequence of logins, refreshes, logouts and purges. *)
Theorem expiry_after_timestamp_invariant :
  (forall d coll stored coll',
     LoginLog.save d coll = inr (stored, coll') -> expiry_after_timestamp stored)
  /\ (forall ops ledger,
        ledger_ok ledger ->
        ledger_ok (run jwt_sign jwt_verify fromAuthHeaderAsBearerToken ops ledger)).
Proof.
  split; [exact save_stores_ok|].
  unfold run. induction ops as [|op ops IH]; simpl; intros ledger Hok; [exact Hok|].
  apply IH. now apply step_ok.
Qed.

(** The logout entry is built with [caducidad = t0] and the later default
    [timestamp = t1]: the [caducidad] validator rejects it. *)
Lemma logout_entry_invalid t0 t1 oid f :
  LoginLog.f_timestamp f = None -> LoginLog.f_caducidad f = t0 -> t0 <= t1 ->
  In ("caducidad", "La fecha de caducidad debe ser posterior al login")
     (LoginLog.validate (LoginLog.new oid t1 f)).
Proof.
  intros Hts Hc Hle. unfold LoginLog.validate.
  rewrite !in_app_iff. right. left.
  cbn [run_validators]. unfold LoginLog.caducidad_validator, LoginLog.new. simpl.
  rewrite Hts, Hc. simpl.
  destruct (Z.gtb_spec t0 t1); [lia | now left].
Qed.

(** With a clock that does not run backwards, the handler of
    [POST /logout] never stores its entry: it answers 500 and the ledger
    is as before. *)
Lemma logout_handler_fails t0 t1 t2 oid req user ledger :
  t0 <= t1 ->
  AuthRoutes.logout_handler t0 t1 t2 oid req user ledger
  = ({| status := 500; body := Error "Error en logout" [] |}, ledger).
Proof.
  intros Hle. unfold AuthRoutes.logout_handler, LoginLog.save.
  match goal with |- context [LoginLog.validate (LoginLog.new oid t1 ?f)] =>
    pose proof (logout_entry_invalid t0 t1 oid f eq_refl eq_refl Hle) as Hin;
    destruct (LoginLog.validate (LoginLog.new oid t1 f)) end;
    [contradiction Hin | reflexivity].
Qed.

Lemma post_logout_never_writes t_jwt t_query t0 t1 t2 oid req ledger :
  t0 <= t1 ->
  let r := AuthRoutes.post_logout jwt_verify fromAuthHeaderAsBearerToken
             t_jwt t_query t0 t1 t2 oid req ledger in
  snd r = ledger /\ (status (fst r) = 401%nat \/ status (fst r) = 500%nat).
Proof.
  intros Hle. cbn zeta. unfold AuthRoutes.post_logout, AuthRoutes.authenticated.
  unfold requireAuth.
  destruct (fromAuthHeaderAsBearerToken _) as [tok|]; [|simpl; auto].
  destruct (jwt_verify tok t_jwt) as [p|]; [|simpl; auto].
  destruct (jwt_verify_callback _ _ _) as [user|]; [|simpl; auto].
  rewrite logout_handler_fails by exact Hle. simpl. auto.
Qed.

(** The live entries for an address, as [findOne] sees them. *)
Lemma findOne_live_iff mail now ledger :
  (exists entry, LoginLog.findOne_live_for_user mail now ledger = Some entry)
  <-> live_session (Js.toLowerCase mail) now ledger.
Proof.
  unfold LoginLog.findOne_live_for_user, live_session. split.
  - intros [entry H]. apply find_some in H as [Hin H].
    apply andb_true_iff in H as [Hu Hc]. apply String.eqb_eq in Hu.
    exists entry. repeat split; [exact Hin | exact Hu | lia].
  - intros (entry & Hin & Hu & Hc).
    destruct (List.find _ ledger) as [e|] eqn:E; [eauto|].
    eapply find_none in E; [|exact Hin]. simpl in E.
    rewrite Hu, String.eqb_refl in E. simpl in E. lia.
Qed.


(** The callback answers by the existence of a live entry alone. *)
Lemma jwt_verify_callback_spec now p ledger :
  (jwt_verify_callback now p ledger = Some p
   /\ live_session (Js.toLowerCase (email p)) now ledger)
  \/ (jwt_verify_callback now p ledger = None
      /\ ~ live_session (Js.toLowerCase (email p)) now ledger).
Proof.
  unfold jwt_verify_callback.
  pose proof (findOne_live_iff (email p) now ledger) as Hlive.
  destruct (LoginLog.findOne_live_for_user (email p) now ledger) as [e|].
  - left. split; [reflexivity|]. apply Hlive. eauto.
  - right. split; [reflexivity|]. intros H. apply Hlive in H as [e He]. discriminate.
Qed.


End Ops.

End LedgerOps.

Module LedgerExamples.

Import Schema Http Passport Ledger.

Lemma expiry_after_timestamp_invariant_witness :
  expiry_after_timestamp (Sample.session "ana@example.com" "t" 1000 5000)
  /\ ledger_ok
       (run Sample.jwt_sign Sample.jwt_verify Sample.fromAuthHeaderAsBearerToken
          [ GoogleLogin 10 10 11 "65a000000000000000000002"
              {| profile_id := "1"; emails := ["ana@example.com"];
                 displayName := "Ana"; photos := ["https://example.com/a.png"] |};
            Refresh 20 20 21 21 22 "65a000000000000000000003"
              (Sample.request_of "jwt-of-ana@example.com");
            LogoutOp 30 30 31 32 33 "65a000000000000000000004"
              (Sample.request_of "jwt-of-ana@example.com");
            Purge 40 ]
          []).
Proof.
  destruct (LedgerOps.expiry_after_timestamp_invariant
              Sample.jwt_sign Sample.jwt_verify Sample.fromAuthHeaderAsBearerToken)
    as [Hsave Hrun].
  split.
  - apply (Hsave (Sample.session "ana@example.com" "t" 1000 5000) []
                 (Sample.session "ana@example.com" "t" 1000 5000)
                 [Sample.session "ana@example.com" "t" 1000 5000]).
    vm_compute. reflexivity.
  - apply Hrun. apply List.Forall_nil.
Defined.


(** A login through Google at the instant 10 writes one entry, issued at
    the later reading 11 and expiring 24 hours after the instant 10. *)
Example google_login_writes_entry :
  google_verify Sample.jwt_sign 10 10 11 "65a000000000000000000002"
    {| profile_id := "1"; emails := ["Ana@Example.com"];
       displayName := "Ana"; photos := ["https://example.com/a.png"] |} []
  = (Some {| user_id := "1"; user_email := "Ana@Example.com"; user_name := "Ana";
             picture := "https://example.com/a.png"; user_provider := "google";
             user_token := "jwt-of-Ana@Example.com" |},
     [ {| LoginLog._id := "65a000000000000000000002"; LoginLog.timestamp := 11;
          LoginLog.usuario := "ana@example.com"; LoginLog.caducidad := 86400010;
          LoginLog.token := "jwt-of-Ana@Example.com"; LoginLog.provider := "google";
          LoginLog.userAgent := ""; LoginLog.ipAddress := "";
          LoginLog.loginType := "login" |} ]).
Proof. vm_compute. reflexivity. Qed.

(** A refresh by Ana, whose session is live, appends a second entry. *)
Example refresh_appends_entry :
  snd (AuthRoutes.post_refresh Sample.jwt_sign Sample.jwt_verify
         Sample.fromAuthHeaderAsBearerToken 20 20 21 21 22 "65a000000000000000000003"
         (Sample.request_of "jwt-of-ana@example.com")
         [Sample.session "ana@example.com" "jwt-of-ana@example.com" 11 86400010])
  = [ Sample.session "ana@example.com" "jwt-of-ana@example.com" 11 86400010;
      {| LoginLog._id := "65a000000000000000000003"; LoginLog.timestamp := 22;
         LoginLog.usuario := "ana@example.com"; LoginLog.caducidad := 86400021;
         LoginLog.token := "jwt-of-ana@example.com"; LoginLog.provider := "google";
         LoginLog.userAgent := "curl"; LoginLog.ipAddress := "::1";
         LoginLog.loginType := "refresh" |} ].
Proof. vm_compute. reflexivity. Qed.

(** Once the entry has expired the same request is refused. *)
Example requireAuth_rejects_expired :
  requireAuth Sample.jwt_verify Sample.fromAuthHeaderAsBearerToken 400 1000
    (Sample.request_of "jwt-of-ana@example.com")
    [Sample.session "ana@example.com" "jwt-of-ana@example.com" 0 1000]
  = inl {| status := 401; body := Unauthorized |}.
Proof. reflexivity. Qed.

(** C5.  Ana, whose session is live, logs out at instant 5000: the entry
    built by the handler has [caducidad = 5000] and [timestamp = 5000],
    the [caducidad] validator rejects it, the answer is 500 and the
    ledger holds no logout entry. *)
Theorem logout_is_rejected_by_validation :
  let ledger := [Sample.session "ana@example.com" "jwt-of-ana@example.com" 0 86400000] in
  LoginLog.validate
    (LoginLog.new "65a000000000000000000005" 5000
       {| LoginLog.f_timestamp := None; LoginLog.f_usuario := "ana@example.com";
          LoginLog.f_caducidad := 5000; LoginLog.f_token := "jwt-of-ana@example.com";
          LoginLog.f_provider := Some "google"; LoginLog.f_userAgent := Some "curl";
          LoginLog.f_ipAddress := Some "::1"; LoginLog.f_loginType := Some "logout" |})
  = [("caducidad", "La fecha de caducidad debe ser posterior al login")]
  /\ AuthRoutes.post_logout Sample.jwt_verify Sample.fromAuthHeaderAsBearerToken
       4000 4500 5000 5000 5001 "65a000000000000000000005"
       (Sample.request_of "jwt-of-ana@example.com") ledger
     = ({| status := 500; body := Error "Error en logout" [] |}, ledger).
Proof. split; vm_compute; reflexivity. Qed.

End LedgerExamples.

(** ** Serialization of a ledger entry *)

Module SerializationFacts.

Import Schema Ledger.

Lemma toJSON_serialized d :
  Js.truthy (LoginLog.token d) = true -> LoginLog.toJSON d = serialized d.
Proof.
  destruct d as [i ts u c tok p ua ipa lt]. simpl.
  destruct tok as [|a tok]; [discriminate|]. intros _.
  vm_compute. reflexivity.
Qed.

Lemma startsWith_length t : forall s,
  Js.startsWith t s = true -> (String.length t <= String.length s)%nat.
Proof.
  induction t as [|a t IH]; simpl; intros s H; [lia|].
  destruct s as [|b s]; [discriminate|].
  apply andb_true_iff in H as [_ H]. apply IH in H. simpl. lia.
Qed.

Lemma includes_length t s :
  Js.includes t s = true -> (String.length t <= String.length s)%nat.
Proof.
  induction s as [|b s IH]; simpl; intros H.
  - apply orb_true_iff in H as [H|H]; [|discriminate].
    now apply startsWith_length in H.
  - apply orb_true_iff in H as [H|H].
    + now apply startsWith_length in H.
    + apply IH in H. lia.
Qed.

Lemma take_length n : forall s, (String.length (Js.take n s) <= n)%nat.
Proof.
  induction n as [|n IH]; intros s; simpl; [lia|].
  destruct s as [|a s]; simpl; [lia|]. specialize (IH s). lia.
Qed.

(** The preview has at most thirteen characters: a longer token does not
    fit in it. *)
Lemma preview_hides_long tok :
  (13 < String.length tok)%nat -> Js.includes tok (Js.take 10 tok ++ "...")%string = false.
Proof.
  intros Hlen. destruct (Js.includes tok _) eqn:E; [|reflexivity].
  apply includes_length in E. rewrite JsFacts.length_append in E.
  pose proof (take_length 10 tok) as Hp.
  change (String.length "...") with 3%nat in E. lia.
Qed.

Section Rendering.

Variable toISOString : Z -> string.
Variable numberToString : Z -> string.

(** C8, as the code has it.  The serialized form of a stored entry with a
    non-empty token has no [token] field; its [tokenPreview] is the first
    ten characters of the token followed by an ellipsis, and the other
    fields are those stored.  When the token is longer than thirteen
    characters and occurs in none of the fields stored beside it, no field
    of the serialized form contains it. *)
Theorem toJSON_hides_long_token d :
  Js.truthy (LoginLog.token d) = true ->
  LoginLog.toJSON d = serialized d
  /\ LoginLog.toJSON d !! "token" = None
  /\ LoginLog.toJSON d !! "tokenPreview"
     = Some (JStr (Js.take 10 (LoginLog.token d) ++ "...")%string)
  /\ ((13 < String.length (LoginLog.token d))%nat ->
      token_apart toISOString d ->
      token_hidden toISOString numberToString d).
Proof.
  intros Ht. pose proof (toJSON_serialized d Ht) as Hs.
  split; [exact Hs|]. unfold token_hidden. rewrite Hs.
  split; [reflexivity|]. split; [reflexivity|].
  intros Hlen (Hid & Hts & Hu & Hc & Hp & Hua & Hip & Hlt). unfold serialized.
  repeat (apply map_Forall_insert_2; [simpl; first [assumption | idtac] |]).
  - now apply preview_hides_long.
  - apply map_Forall_empty.
Qed.

End Rendering.

Lemma toJSON_hides_long_token_witness :
  token_hidden Js.toISOString Sample.numberToString
    (Sample.session "ana@example.com" "eyJhbGciOiJIUzI1NiJ9.e30.sig" 0 1000).
Proof.
  apply (toJSON_hides_long_token Js.toISOString Sample.numberToString
           (Sample.session "ana@example.com" "eyJhbGciOiJIUzI1NiJ9.e30.sig" 0 1000)).
  - reflexivity.
  - simpl. lia.
  - vm_compute. repeat split; reflexivity.
Defined.

(** C8, as the specification has it, fails on a short token: the preview
    of the stored token [abc] is [abc...], which contains it. *)
Lemma short_token_is_exposed :
  let entry := Sample.session "ana@example.com" "abc" 0 1000 in
  LoginLog.validate entry = []
  /\ Js.truthy (LoginLog.token entry) = true
  /\ LoginLog.toJSON entry !! "tokenPreview" = Some (JStr "abc...")
  /\ ~ token_hidden Js.toISOString Sample.numberToString entry.
Proof.
  cbn zeta. split; [vm_compute; reflexivity|]. split; [reflexivity|].
  split; [vm_compute; reflexivity|].
  intros H. specialize (H "tokenPreview" (JStr "abc...")).
  assert (Hl : LoginLog.toJSON (Sample.session "ana@example.com" "abc" 0 1000)
               !! "tokenPreview" = Some (JStr "abc...")) by (vm_compute; reflexivity).
  specialize (H Hl). vm_compute in H. discriminate H.
Qed.

(** The rendering of dates on known instants. *)
Example toISOString_epoch : Js.toISOString 0 = "1970-01-01T00:00:00.000Z".
Proof. reflexivity. Qed.

Example toISOString_2023 : Js.toISOString 1700000000000 = "2023-11-14T22:13:20.000Z".
Proof. reflexivity. Qed.

Example toISOString_leap_day : Js.toISOString 1709251199999 = "2024-02-29T23:59:59.999Z".
Proof. reflexivity. Qed.

(** A token that fits in the preview together with its dots is exposed
    too, although it is longer than ten characters. *)
Example dotted_token_is_exposed :
  Js.includes "aaaaaaaaaa." (Js.take 10 "aaaaaaaaaa." ++ "...")%string = true.
Proof. reflexivity. Qed.

End SerializationFacts.

(** ** Proximity search *)

Module GeoFacts.

Import Geo.

Lemma insert_In d x l :
  In x (Event.insert_by_timestamp d l) <-> x = d \/ In x l.
Proof.
  induction l as [|e l IH]; simpl.
  - intuition.
  - destruct (Event.timestamp d <=? Event.timestamp e); simpl; [intuition|].
    rewrite IH. intuition.
Qed.

Lemma sort_In x l : In x (Event.sort_by_timestamp l) <-> In x l.
Proof.
  induction l as [|e l IH]; simpl; [reflexivity|].
  rewrite insert_In, IH. intuition.
Qed.

Lemma insert_sorted d l :
  StronglySorted not_later l -> StronglySorted not_later (Event.insert_by_timestamp d l).
Proof.
  induction 1 as [|e l Hs IH He]; simpl.
  - repeat constructor.
  - destruct (Z.leb_spec (Event.timestamp d) (Event.timestamp e)) as [Hle|Hgt].
    + constructor; [now constructor|].
      constructor; [exact Hle|].
      eapply List.Forall_impl; [|exact He]. unfold not_later. intros x Hx. lia.
    + constructor; [exact IH|].
      apply List.Forall_forall. intros x Hx. apply insert_In in Hx as [-> | Hx].
      * unfold not_later. lia.
      * rewrite List.Forall_forall in He. now apply He.
Qed.

Lemma sort_sorted l : StronglySorted not_later (Event.sort_by_timestamp l).
Proof.
  induction l as [|e l IH]; simpl; [constructor | now apply insert_sorted].
Qed.

Lemma insert_perm d l : Permutation (d :: l) (Event.insert_by_timestamp d l).
Proof.
  induction l as [|e l IH]; simpl; [reflexivity|].
  destruct (Event.timestamp d <=? Event.timestamp e); [reflexivity|].
  etransitivity; [apply perm_swap | now constructor].
Qed.

Lemma sort_perm l : Permutation l (Event.sort_by_timestamp l).
Proof.
  induction l as [|e l IH]; simpl; [constructor|].
  etransitivity; [|apply insert_perm]. now constructor.
Qed.

Lemma nearby_iff now qlat qlon r d :
  Event.nearby now qlat qlon r d = true
  <-> in_box qlat qlon r d /\ now <= Event.timestamp d.
Proof.
  unfold Event.nearby, in_box.
  rewrite !andb_true_iff, !Qle_bool_iff, Z.leb_le. tauto.
Qed.


(** Nothing is lost or repeated by the ordering. *)
Lemma findNearby_perm now qlat qlon maxDistance coll :
  Permutation
    (List.filter (Event.nearby now qlat qlon (default Event.default_maxDistance maxDistance)) coll)
    (Event.findNearby now qlat qlon maxDistance coll).
Proof. apply sort_perm. Qed.

(** The scenario of the specification: the concert at (40.0, -3.0) is
    found from (40.01, -3.01) and not from (41.0, -3.0). *)
Example concert_is_nearby :
  Event.findNearby 1000 (4001 # 100) (-301 # 100) (Some (2 # 10)%Q) [Sample.concert]
  = [Sample.concert].
Proof. reflexivity. Qed.

Example concert_is_far :
  Event.findNearby 1000 41 (-3) None [Sample.concert] = [].
Proof. reflexivity. Qed.

End GeoFacts.

(** ** Ownership and updates of events *)

Module EventRouteFacts.

Import Schema Http Passport EventRoutes.

Lemma timestamp_rejected now d :
  Event.timestamp d <= now ->
  In ("timestamp", "La fecha del evento debe ser futura") (Event.validate now d).
Proof.
  intros Hle. unfold Event.validate. rewrite !in_app_iff. right. left.
  cbn [run_validators]. unfold Event.timestamp_validator.
  destruct (Z.gtb_spec (Event.timestamp d) now); [lia | now left].
Qed.

Lemma save_rejects_past isNew clk d coll :
  Event.timestamp d <= Event.at_validate clk ->
  exists errs,
    Event.save isNew clk d coll = inl (ValidationError errs)
    /\ In ("timestamp", "La fecha del evento debe ser futura") errs.
Proof.
  intros Hle. pose proof (timestamp_rejected _ _ Hle) as Hin.
  unfold Event.save.
  destruct (Event.validate (Event.at_validate clk) d) as [|e errs];
    [contradiction Hin | eauto].
Qed.

(** The assignments of the update handler leave the timestamp of the
    patch in place. *)
Lemma apply_basic_timestamp b event ts :
  u_timestamp b = Some ts -> Event.timestamp (apply_basic b event) = ts.
Proof.
  intros H. unfold apply_basic, assign_if. rewrite H.
  destruct (u_nombre b) as [n|]; [destruct (truthy_opt (Some n))|];
    destruct (u_descripcion b);
    (destruct (u_categoria b) as [c|]; [destruct (truthy_opt (Some c))|]);
    destruct (u_precio b); destruct (u_capacidad b); reflexivity.
Qed.

Lemma details_of_In path msg errs : In (path, msg) errs -> In msg (details_of errs).
Proof. intros H. unfold details_of. apply in_map_iff. exists (path, msg). auto. Qed.

Section Routes.

Variable jwt_verify : string -> Z -> option JwtPayload.
Variable fromAuthHeaderAsBearerToken : option string -> option string.
Variable castObjectId : string -> option string.
Variable getCoordinatesFromAddress : string -> option Coordinates.
Variable uploadImage : string -> option string.

(** An update whose patch carries a timestamp that is not in the future
    is answered 400 and writes nothing. *)
Lemma update_handler_rejects_past clk b event events ts :
  u_timestamp b = Some ts -> ts <= Event.at_validate clk ->
  let r := update_handler getCoordinatesFromAddress uploadImage clk b event events in
  snd r = events
  /\ status (fst r) = 400%nat
  /\ (u_lugar b = None ->
      exists details,
        body (fst r) = Error "Error de validación" details
        /\ In "La fecha del evento debe ser futura" details).
Proof.
  intros Hts Hle. cbn zeta. unfold update_handler.
  pose proof (apply_basic_timestamp b event ts Hts) as He.
  set (e := apply_basic b event) in *.
  assert (Hsave : forall e', Event.timestamp e' = ts ->
            let r := match Event.save false clk e' events with
                     | inr (updatedEvent, events') =>
                         ({| status := 200;
                             body := EventBody "Evento actualizado exitosamente" updatedEvent |},
                          events')
                     | inl err => (save_failed "Error actualizando evento" err, events)
                     end in
            snd r = events /\ status (fst r) = 400%nat
            /\ exists details, body (fst r) = Error "Error de validación" details
                 /\ In "La fecha del evento debe ser futura" details).
  { intros e' He'. cbn zeta.
    destruct (save_rejects_past false clk e' events) as (errs & -> & Hin); [lia|].
    simpl. repeat split. eexists. split; [reflexivity|].
    eapply details_of_In, Hin. }
  assert (Himg : forall e', Event.timestamp e' = ts ->
            Event.timestamp match u_file b with
                            | Some file => match uploadImage file with
                                           | Some url => set_imagen url e'
                                           | None => e'
                                           end
                            | None => e'
                            end = ts).
  { intros e' He'. destruct (u_file b) as [file|]; [|exact He'].
    destruct (uploadImage file); [exact He' | exact He']. }
  destruct (u_lugar b) as [lugar|].
  - destruct (Js.truthy lugar && negb (String.eqb lugar (Event.lugar e))).
    + destruct (getCoordinatesFromAddress lugar) as [coordinates|].
      * destruct (Hsave _ (Himg (set_location coordinates lugar e) He)) as (H1 & H2 & _).
        repeat split; [exact H1 | exact H2 | discriminate].
      * simpl. repeat split. discriminate.
    + destruct (Hsave _ (Himg e He)) as (H1 & H2 & _).
      repeat split; [exact H1 | exact H2 | discriminate].
  - destruct (Hsave _ (Himg e He)) as (H1 & H2 & H3).
    repeat split; [exact H1 | exact H2 | intros _; exact H3].
Qed.

(** What [owned] does once the caller is authenticated and is the
    organizer of the event. *)
Lemma owned_by_organizer t_jwt t_query req param_id oid handler ledger events user event :
  requireAuth jwt_verify fromAuthHeaderAsBearerToken t_jwt t_query req ledger = inr user ->
  castObjectId param_id = Some oid ->
  Event.findById oid events = Some event ->
  Event.organizador event = email user ->
  owned jwt_verify fromAuthHeaderAsBearerToken castObjectId t_jwt t_query req param_id
    handler ledger events
  = handler event events.
Proof.
  intros Ha Hc Hf Ho. unfold owned, requireEventOwnership.
  rewrite Ha, Hc, Hf, Ho, String.eqb_refl. reflexivity.
Qed.

(** C4, as the code has it.  When the organizer of an existing event
    applies a patch that sets the timestamp to an instant at or before
    the instant of validation, the update is answered 400 and the stored
    events are unchanged: the [timestamp] validator runs on every save.
    Only the check of the [pre('save')] hook is restricted to creation:
    it rejects a new document whose timestamp has passed and never
    rejects a loaded one. *)
Theorem update_revalidates_timestamp
    t_jwt t_query clk req param_id oid b ledger events user event ts :
  requireAuth jwt_verify fromAuthHeaderAsBearerToken t_jwt t_query req ledger = inr user ->
  castObjectId param_id = Some oid ->
  Event.findById oid events = Some event ->
  Event.organizador event = email user ->
  u_timestamp b = Some ts ->
  ts <= Event.at_validate clk ->
  let r := put_event jwt_verify fromAuthHeaderAsBearerToken castObjectId
             getCoordinatesFromAddress uploadImage
             t_jwt t_query clk req param_id b ledger events in
  snd r = events
  /\ status (fst r) = 400%nat
  /\ (u_lugar b = None ->
      exists details,
        body (fst r) = Error "Error de validación" details
        /\ In "La fecha del evento debe ser futura" details)
  /\ (forall now d, Event.pre_save false now d = None)
  /\ (forall now d, Event.timestamp d <= now ->
        Event.pre_save true now d = Some "No se pueden crear eventos con fecha pasada").
Proof.
  intros Ha Hc Hf Ho Hts Hle. cbn zeta. unfold put_event.
  rewrite (owned_by_organizer _ _ _ _ _ _ _ _ _ _ Ha Hc Hf Ho).
  destruct (update_handler_rejects_past clk b event events ts Hts Hle) as (H1 & H2 & H3).
  split; [exact H1|]. split; [exact H2|]. split; [exact H3|].
  split; [reflexivity|].
  intros now d Hd. unfold Event.pre_save. simpl.
  destruct (Z.leb_spec (Event.timestamp d) now); [reflexivity | lia].
Qed.


End Routes.


(** Ana moves her concert to the instant 1000, which has passed at the
    instant 5000 of the update. *)
Lemma update_revalidates_timestamp_witness :
  let r := put_event Sample.jwt_verify Sample.fromAuthHeaderAsBearerToken
             Sample.castObjectId Sample.getCoordinatesFromAddress Sample.uploadImage
             4000 4500 {| Event.at_validate := 5000; Event.at_pre_save := 5001 |}
             (Sample.request_of "jwt-of-ana@example.com") "65b000000000000000000001"
             (Sample.move_to 1000)
             [Sample.session "ana@example.com" "jwt-of-ana@example.com" 0 86400000]
             [Sample.concert] in
  snd r = [Sample.concert] /\ status (fst r) = 400%nat.
Proof.
  cbn zeta.
  destruct (update_revalidates_timestamp
              Sample.jwt_verify Sample.fromAuthHeaderAsBearerToken Sample.castObjectId
              Sample.getCoordinatesFromAddress Sample.uploadImage
              4000 4500 {| Event.at_validate := 5000; Event.at_pre_save := 5001 |}
              (Sample.request_of "jwt-of-ana@example.com") "65b000000000000000000001"
              "65b000000000000000000001" (Sample.move_to 1000)
              [Sample.session "ana@example.com" "jwt-of-ana@example.com" 0 86400000]
              [Sample.concert] Sample.ana Sample.concert 1000
              eq_refl eq_refl eq_refl eq_refl eq_refl)
    as (H1 & H2 & _).
  - simpl. lia.
  - split; [exact H1 | exact H2].
Defined.

(** C4, as the specification has it, fails: the update of Ana's own
    concert to a past instant does not succeed. *)
Lemma update_to_past_timestamp_fails :
  put_event Sample.jwt_verify Sample.fromAuthHeaderAsBearerToken
    Sample.castObjectId Sample.getCoordinatesFromAddress Sample.uploadImage
    4000 4500 {| Event.at_validate := 5000; Event.at_pre_save := 5001 |}
    (Sample.request_of "jwt-of-ana@example.com") "65b000000000000000000001"
    (Sample.move_to 1000)
    [Sample.session "ana@example.com" "jwt-of-ana@example.com" 0 86400000]
    [Sample.concert]
  = ({| status := 400;
        body := Error "Error de validación" ["La fecha del evento debe ser futura"] |},
     [Sample.concert]).
Proof. vm_compute. reflexivity. Qed.

(** The same update to a future instant is written. *)
Example update_to_future_timestamp_succeeds :
  put_event Sample.jwt_verify Sample.fromAuthHeaderAsBearerToken
    Sample.castObjectId Sample.getCoordinatesFromAddress Sample.uploadImage
    4000 4500 {| Event.at_validate := 5000; Event.at_pre_save := 5001 |}
    (Sample.request_of "jwt-of-ana@example.com") "65b000000000000000000001"
    (Sample.move_to 95000000)
    [Sample.session "ana@example.com" "jwt-of-ana@example.com" 0 86400000]
    [Sample.concert]
  = ({| status := 200;
        body := EventBody "Evento actualizado exitosamente"
                  (set_timestamp 95000000 Sample.concert) |},
     [set_timestamp 95000000 Sample.concert]).
Proof. vm_compute. reflexivity. Qed.

End EventRouteFacts.

(** ** The e-mail validator on concrete addresses *)

Module EmailExamples.

Import Schema Http Passport.

Example accepts_com : email_validator "a@x.com" = true.
Proof. reflexivity. Qed.

Example accepts_dotted : email_validator "maria.lopez-1@mail.example.es" = true.
Proof. reflexivity. Qed.

Example rejects_info : email_validator "ana@example.info" = false.
Proof. reflexivity. Qed.

Example accepts_info_es : email_validator "ana@example.info.es" = true.
Proof. reflexivity. Qed.

Example rejects_one_letter_label : email_validator "ana@example.c" = false.
Proof. reflexivity. Qed.

Example final_label_of_info : final_label "ana@example.info" = "info".
Proof. reflexivity. Qed.

Lemma email_validator_short_final_label_witness :
  two_or_three_word_chars (final_label "ana@example.com")
  /\ (exists errs msg,
        Event.save true {| Event.at_validate := 5000; Event.at_pre_save := 5001 |}
          (Event.new "65b000000000000000000002"
             {| Event.f_nombre := "Feria"; Event.f_timestamp := 90000000;
                Event.f_lugar := "Sevilla"; Event.f_lat := 37; Event.f_lon := -6;
                Event.f_organizador := "ana@example.info"; Event.f_imagen := None;
                Event.f_descripcion := ""; Event.f_categoria := "otro";
                Event.f_precio := 0; Event.f_capacidad := None |}) []
        = inl (ValidationError errs)
        /\ In ("organizador", msg) errs)
  /\ (exists errs msg,
        LoginLog.save (Sample.session "ana@example.info" "t" 1000 5000) []
        = inl (ValidationError errs)
        /\ In ("usuario", msg) errs).
Proof.
  destruct EmailFacts.email_validator_short_final_label as (Hlabel & _ & Hevent & Hentry).
  split; [apply Hlabel; reflexivity|].
  split; [apply Hevent; reflexivity | apply Hentry; reflexivity].
Defined.

(** A user whose address ends in [.info] cannot create an event: the
    only failure of the validation is that of [organizador]. *)
Example info_user_cannot_create_event :
  EventRoutes.create_handler Sample.getCoordinatesFromAddress Sample.uploadImage
    {| Event.at_validate := 5000; Event.at_pre_save := 5001 |}
    "65b000000000000000000002"
    {| EventRoutes.c_nombre := Some "Feria"; EventRoutes.c_timestamp := Some 90000000;
       EventRoutes.c_lugar := Some "Sevilla"; EventRoutes.c_descripcion := None;
       EventRoutes.c_categoria := None; EventRoutes.c_precio := None;
       EventRoutes.c_capacidad := None; EventRoutes.c_file := None |}
    {| id := "3"; email := "Ana@Example.info"; name := "Ana"; provider := "google" |}
    []
  = ({| status := 400; body := Error "Error de validación" ["Email inválido"] |}, []).
Proof. vm_compute. reflexivity. Qed.

(** The same request from an address in [.com] creates the event. *)
Example com_user_creates_event :
  fst (EventRoutes.create_handler Sample.getCoordinatesFromAddress Sample.uploadImage
         {| Event.at_validate := 5000; Event.at_pre_save := 5001 |}
         "65b000000000000000000002"
         {| EventRoutes.c_nombre := Some "Feria"; EventRoutes.c_timestamp := Some 90000000;
            EventRoutes.c_lugar := Some "Sevilla"; EventRoutes.c_descripcion := None;
            EventRoutes.c_categoria := None; EventRoutes.c_precio := None;
            EventRoutes.c_capacidad := None; EventRoutes.c_file := None |}
         Sample.ana [])
  = {| status := 201;
       body := EventBody "Evento creado exitosamente"
                 {| Event._id := "65b000000000000000000002"; Event.nombre := "Feria";
                    Event.timestamp := 90000000; Event.lugar := "Sevilla";
                    Event.lat := 40; Event.lon := -3;
                    Event.organizador := "ana@example.com"; Event.imagen := None;
                    Event.descripcion := ""; Event.categoria := "otro";
                    Event.precio := 0; Event.capacidad := None |} |}.
Proof. vm_compute. reflexivity. Qed.

End EmailExamples.

(** ** Writing events: creation, update and deletion *)

Module EventWriteFacts.

Import Schema Http Passport EventRoutes.

Lemma event_save_inr isNew clk d coll d' coll' :
  Event.save isNew clk d coll = inr (d', coll') ->
  Event.validate (Event.at_validate clk) d = []
  /\ Event.pre_save isNew (Event.at_pre_save clk) d = None
  /\ d' = d
  /\ coll' = (if isNew then coll ++ [d] else Event.replace d coll).
Proof.
  unfold Event.save.
  destruct (Event.validate (Event.at_validate clk) d); [|discriminate].
  destruct (Event.pre_save isNew (Event.at_pre_save clk) d); [discriminate|].
  intros [= <- <-]. auto.
Qed.

Lemma validate_nil_timestamp now d :
  Event.validate now d = [] -> now < Event.timestamp d.
Proof.
  intros H. destruct (Z.le_gt_cases (Event.timestamp d) now) as [Hle|Hgt]; [|lia].
  pose proof (EventRouteFacts.timestamp_rejected now d Hle) as Hin.
  rewrite H in Hin. contradiction Hin.
Qed.

Lemma pre_save_new_none now d :
  Event.pre_save true now d = None -> now < Event.timestamp d.
Proof.
  unfold Event.pre_save. simpl.
  destruct (Z.leb_spec (Event.timestamp d) now); [discriminate | lia].
Qed.

Lemma find_app_last {A} (f : A -> bool) l x :
  List.find f (l ++ [x])
  = match List.find f l with
    | Some y => Some y
    | None => if f x then Some x else None
    end.
Proof.
  induction l as [|a l IH]; simpl; [reflexivity|]. now destruct (f a).
Qed.

Lemma findById_id oid events e : Event.findById oid events = Some e -> Event._id e = oid.
Proof.
  unfold Event.findById. intros H. apply find_some in H as [_ H].
  now apply String.eqb_eq.
Qed.

Lemma findById_replace_same d events :
  Event.findById (Event._id d) events <> None ->
  Event.findById (Event._id d) (Event.replace d events) = Some d.
Proof.
  unfold Event.findById. induction events as [|e events IH]; simpl; [congruence|].
  destruct (String.eqb (Event._id e) (Event._id d)) eqn:E; simpl.
  - now rewrite String.eqb_refl.
  - rewrite E. exact IH.
Qed.

Lemma findById_replace_other d oid events :
  oid <> Event._id d ->
  Event.findById oid (Event.replace d events) = Event.findById oid events.
Proof.
  unfold Event.findById. intros Hne.
  induction events as [|e events IH]; simpl; [reflexivity|].
  destruct (String.eqb (Event._id e) (Event._id d)) eqn:E; simpl.
  - apply String.eqb_eq in E.
    assert (H1 : String.eqb (Event._id d) oid = false) by (apply String.eqb_neq; congruence).
    assert (H2 : String.eqb (Event._id e) oid = false) by (apply String.eqb_neq; congruence).
    now rewrite H1, H2.
  - destruct (String.eqb (Event._id e) oid); [reflexivity | exact IH].
Qed.

Lemma length_replace d events : List.length (Event.replace d events) = List.length events.
Proof.
  induction events as [|e events IH]; simpl; [reflexivity|].
  destruct (String.eqb (Event._id e) (Event._id d)); simpl; [reflexivity | now rewrite IH].
Qed.

Lemma findById_delete_other oid oid' events :
  oid' <> oid ->
  Event.findById oid' (Event.findByIdAndDelete oid events) = Event.findById oid' events.
Proof.
  unfold Event.findById. intros Hne.
  induction events as [|e events IH]; simpl; [reflexivity|].
  destruct (String.eqb (Event._id e) oid) eqn:E; simpl.
  - apply String.eqb_eq in E.
    assert (H : String.eqb (Event._id e) oid' = false) by (apply String.eqb_neq; congruence).
    now rewrite H.
  - destruct (String.eqb (Event._id e) oid'); [reflexivity | exact IH].
Qed.

Lemma length_delete oid events :
  Event.findById oid events <> None ->
  S (List.length (Event.findByIdAndDelete oid events)) = List.length events.
Proof.
  unfold Event.findById. induction events as [|e events IH]; simpl; [congruence|].
  destruct (String.eqb (Event._id e) oid); simpl; [reflexivity|].
  intros H. now rewrite IH.
Qed.

Lemma findById_none_iff oid events :
  Event.findById oid events = None <-> ~ In oid (List.map Event._id events).
Proof.
  unfold Event.findById. induction events as [|e events IH]; simpl; [tauto|].
  destruct (String.eqb_spec (Event._id e) oid) as [E|E].
  - split; [discriminate | intros H; exfalso; apply H; now left].
  - rewrite IH. tauto.
Qed.

Lemma findById_delete_same oid events :
  List.NoDup (List.map Event._id events) ->
  Event.findById oid (Event.findByIdAndDelete oid events) = None.
Proof.
  induction events as [|e events IH]; simpl; intros Hnd; [reflexivity|].
  inversion Hnd as [|? ? Hnotin Hnd']; subst.
  destruct (String.eqb_spec (Event._id e) oid) as [E|E].
  - apply findById_none_iff. now rewrite <- E.
  - unfold Event.findById in *. simpl.
    apply String.eqb_neq in E. rewrite E. now apply IH.
Qed.

(** The assignments of the update handler touch neither the identifier
    nor the organizer. *)
Lemma apply_basic_identity b event :
  Event._id (apply_basic b event) = Event._id event
  /\ Event.organizador (apply_basic b event) = Event.organizador event.
Proof.
  unfold apply_basic, assign_if.
  destruct (u_nombre b) as [n|]; [destruct (truthy_opt (Some n))|];
    destruct (u_timestamp b); destruct (u_descripcion b);
    (destruct (u_categoria b) as [c|]; [destruct (truthy_opt (Some c))|]);
    destruct (u_precio b); destruct (u_capacidad b); split; reflexivity.
Qed.

Lemma requireAuth_rejection jwt_verify fromAuthHeaderAsBearerToken t_jwt t_query req ledger r :
  requireAuth jwt_verify fromAuthHeaderAsBearerToken t_jwt t_query req ledger = inl r ->
  r = {| status := 401; body := Unauthorized |}.
Proof.
  unfold requireAuth.
  destruct (fromAuthHeaderAsBearerToken _) as [tok|]; [|now intros [= <-]].
  destruct (jwt_verify tok t_jwt) as [p|]; [|now intros [= <-]].
  destruct (jwt_verify_callback _ _ _); [discriminate | now intros [= <-]].
Qed.

Section Routes.

Variable jwt_verify : string -> Z -> option JwtPayload.
Variable fromAuthHeaderAsBearerToken : option string -> option string.
Variable castObjectId : string -> option string.
Variable getCoordinatesFromAddress : string -> option Coordinates.
Variable uploadImage : string -> option string.

(** X1.  When [POST /api/events] answers 201 under a fresh identifier,
    the event in the answer has been appended to the collection,
    [findById] returns it, its organizer is the address of the
    authenticated user in lower case, its timestamp lies after both
    clock readings of the save, and every event found before is found as
    before. *)
Theorem created_event_is_stored clk oid b user events r events' :
  create_handler getCoordinatesFromAddress uploadImage clk oid b user events = (r, events') ->
  status r = 201%nat ->
  Event.findById oid events = None ->
  exists e,
    body r = EventBody "Evento creado exitosamente" e
    /\ events' = events ++ [e]
    /\ Event.findById oid events' = Some e
    /\ Event._id e = oid
    /\ Event.organizador e = Js.toLowerCase (email user)
    /\ Event.at_validate clk < Event.timestamp e
    /\ Event.at_pre_save clk < Event.timestamp e
    /\ (forall oid', oid' <> oid ->
          Event.findById oid' events' = Event.findById oid' events).
Proof.
  unfold create_handler. intros H Hst Hfresh.
  destruct (truthy_opt (c_nombre b)); [|injection H as <- _; discriminate Hst].
  destruct (c_timestamp b) as [ts|]; [|injection H as <- _; discriminate Hst].
  destruct (truthy_opt (c_lugar b)); [|injection H as <- _; discriminate Hst].
  destruct (getCoordinatesFromAddress _) as [coordinates|];
    [|injection H as <- _; discriminate Hst].
  match type of H with context [Event.save true clk ?d events] =>
    set (newEvent := d) in *; destruct (Event.save true clk newEvent events)
      as [err|[savedEvent coll]] eqn:Hsave end.
  - injection H as <- _. destruct err; discriminate Hst.
  - injection H as <- <-.
    apply event_save_inr in Hsave as (Hv & Hh & -> & ->).
    exists newEvent. split; [reflexivity|]. split; [reflexivity|].
    assert (Hid : Event._id newEvent = oid) by reflexivity.
    split.
    { unfold Event.findById in *. rewrite find_app_last, Hfresh.
      rewrite Hid, String.eqb_refl. reflexivity. }
    split; [exact Hid|]. split; [reflexivity|].
    split; [now apply validate_nil_timestamp|].
    split; [now apply pre_save_new_none|].
    intros oid' Hne. unfold Event.findById. rewrite find_app_last.
    destruct (List.find _ events); [reflexivity|].
    rewrite Hid. apply String.eqb_neq in Hne. rewrite String.eqb_sym in Hne.
    now rewrite Hne.
Qed.


(** What a successful run of the update handler has done. *)
Lemma update_handler_200 clk b event events r events' :
  update_handler getCoordinatesFromAddress uploadImage clk b event events = (r, events') ->
  status r = 200%nat ->
  exists e',
    body r = EventBody "Evento actualizado exitosamente" e'
    /\ events' = Event.replace e' events
    /\ Event._id e' = Event._id event
    /\ Event.organizador e' = Event.organizador event
    /\ Event.at_validate clk < Event.timestamp e'.
Proof.
  unfold update_handler. intros H Hst.
  destruct (apply_basic_identity b event) as [Hid Horg].
  set (e := apply_basic b event) in *.
  assert (Hsave : forall e1, Event._id e1 = Event._id event ->
            Event.organizador e1 = Event.organizador event ->
            match Event.save false clk e1 events with
            | inr (updatedEvent, coll) =>
                ({| status := 200;
                    body := EventBody "Evento actualizado exitosamente" updatedEvent |}, coll)
            | inl err => (save_failed "Error actualizando evento" err, events)
            end = (r, events') ->
            exists e', body r = EventBody "Evento actualizado exitosamente" e'
              /\ events' = Event.replace e' events
              /\ Event._id e' = Event._id event
              /\ Event.organizador e' = Event.organizador event
              /\ Event.at_validate clk < Event.timestamp e').
  { intros e1 H1 H2 Hr.
    destruct (Event.save false clk e1 events) as [err|[u coll]] eqn:Hs.
    - injection Hr as <- _. destruct err; discriminate Hst.
    - injection Hr as <- <-. apply event_save_inr in Hs as (Hv & _ & -> & ->).
      exists e1. repeat split; auto. now apply validate_nil_timestamp. }
  assert (Himg : forall e1, Event._id e1 = Event._id event ->
            Event.organizador e1 = Event.organizador event ->
            let e2 := match u_file b with
                      | Some file => match uploadImage file with
                                     | Some url => set_imagen url e1
                                     | None => e1
                                     end
                      | None => e1
                      end in
            Event._id e2 = Event._id event
            /\ Event.organizador e2 = Event.organizador event).
  { intros e1 H1 H2. cbn zeta. destruct (u_file b) as [file|]; [|auto].
    destruct (uploadImage file); auto. }
  destruct (u_lugar b) as [lugar|].
  - destruct (Js.truthy lugar && negb (String.eqb lugar (Event.lugar e))).
    + destruct (getCoordinatesFromAddress lugar) as [coordinates|].
      * destruct (Himg (set_location coordinates lugar e) Hid Horg) as [H1 H2].
        exact (Hsave _ H1 H2 H).
      * injection H as <- _. discriminate Hst.
    + destruct (Himg e Hid Horg) as [H1 H2]. exact (Hsave _ H1 H2 H).
  - destruct (Himg e Hid Horg) as [H1 H2]. exact (Hsave _ H1 H2 H).
Qed.

(** X3.  When [PUT /api/events/:id] answers 200, the caller is the
    organizer of the event with that identifier; the event in the answer
    has replaced it, with the same identifier and the same organizer and a
    timestamp after the instant of validation; the number of events is
    unchanged, and every event with another identifier is found as
    before. *)
Theorem update_keeps_identity t_jwt t_query clk req param_id oid b ledger events r events' :
  put_event jwt_verify fromAuthHeaderAsBearerToken castObjectId
    getCoordinatesFromAddress uploadImage
    t_jwt t_query clk req param_id b ledger events = (r, events') ->
  status r = 200%nat ->
  castObjectId param_id = Some oid ->
  exists user event e',
    requireAuth jwt_verify fromAuthHeaderAsBearerToken t_jwt t_query req ledger = inr user
    /\ Event.findById oid events = Some event
    /\ Event.organizador event = email user
    /\ body r = EventBody "Evento actualizado exitosamente" e'
    /\ Event.findById oid events' = Some e'
    /\ Event._id e' = oid
    /\ Event.organizador e' = Event.organizador event
    /\ Event.at_validate clk < Event.timestamp e'
    /\ List.length events' = List.length events
    /\ (forall oid', oid' <> oid ->
          Event.findById oid' events' = Event.findById oid' events).
Proof.
  unfold put_event, owned, requireEventOwnership. intros H Hst Hc. rewrite Hc in H.
  destruct (requireAuth _ _ _ _ _ _) as [rej|user] eqn:Ha.
  { injection H as <- _. apply requireAuth_rejection in Ha. subst rej. discriminate Hst. }
  destruct (Event.findById oid events) as [event|] eqn:Hf;
    [|injection H as <- _; discriminate Hst].
  destruct (String.eqb_spec (Event.organizador event) (email user)) as [Ho|Ho];
    simpl in H; [|injection H as <- _; discriminate Hst].
  apply update_handler_200 in H as (e' & Hb & -> & Hid & Horg & Hts); [|exact Hst].
  pose proof (findById_id _ _ _ Hf) as Hoid.
  exists user, event, e'.
  split; [reflexivity|]. split; [reflexivity|]. split; [exact Ho|].
  split; [exact Hb|].
  split.
  { rewrite <- Hoid, <- Hid. apply findById_replace_same. rewrite Hid, Hoid, Hf. discriminate. }
  split; [congruence|]. split; [exact Horg|]. split; [exact Hts|].
  split; [apply length_replace|].
  intros oid' Hne. apply findById_replace_other. congruence.
Qed.

(** X4.  When [DELETE /api/events/:id] answers 200, the caller is the
    organizer of the event with that identifier; one event has left the
    collection, every event with another identifier is found as before,
    and when identifiers are unique the deleted one is found no more. *)
Theorem delete_removes_event t_jwt t_query req param_id oid ledger events r events' :
  delete_event jwt_verify fromAuthHeaderAsBearerToken castObjectId
    t_jwt t_query req param_id ledger events = (r, events') ->
  status r = 200%nat ->
  castObjectId param_id = Some oid ->
  exists user event,
    requireAuth jwt_verify fromAuthHeaderAsBearerToken t_jwt t_query req ledger = inr user
    /\ Event.findById oid events = Some event
    /\ Event.organizador event = email user
    /\ body r = Deleted "Evento eliminado exitosamente" (Event._id event) (Event.nombre event)
    /\ S (List.length events') = List.length events
    /\ (forall oid', oid' <> oid ->
          Event.findById oid' events' = Event.findById oid' events)
    /\ (List.NoDup (List.map Event._id events) -> Event.findById oid events' = None).
Proof.
  unfold delete_event, owned, requireEventOwnership, delete_handler.
  intros H Hst Hc. rewrite Hc in H.
  destruct (requireAuth _ _ _ _ _ _) as [rej|user] eqn:Ha.
  { injection H as <- _. apply requireAuth_rejection in Ha. subst rej. discriminate Hst. }
  destruct (Event.findById oid events) as [event|] eqn:Hf;
    [|injection H as <- _; discriminate Hst].
  destruct (String.eqb_spec (Event.organizador event) (email user)) as [Ho|Ho];
    simpl in H; [|injection H as <- _; discriminate Hst].
  injection H as <- <-.
  exists user, event.
  split; [reflexivity|]. split; [reflexivity|]. split; [exact Ho|].
  split; [reflexivity|].
  split; [apply length_delete; rewrite Hf; discriminate|].
  split; [intros oid' Hne; now apply findById_delete_other|].
  apply findById_delete_same.
Qed.

(** X5.  The ownership check compares the stored organizer, which is in
    lower case, with the address of the credential as it is: the creator
    of an event passes it exactly when the address of the credential is
    in lower case, and is answered 403 otherwise. *)
Theorem creator_passes_iff_lower_case param_id oid user event events :
  castObjectId param_id = Some oid ->
  Event.findById oid events = Some event ->
  Event.organizador event = Js.toLowerCase (email user) ->
  (requireEventOwnership castObjectId param_id user events = inr event
   <-> Js.toLowerCase (email user) = email user)
  /\ (Js.toLowerCase (email user) <> email user ->
      exists r, requireEventOwnership castObjectId param_id user events = inl r
                /\ status r = 403%nat).
Proof.
  intros Hc Hf Ho. unfold requireEventOwnership. rewrite Hc, Hf, Ho.
  destruct (String.eqb_spec (Js.toLowerCase (email user)) (email user)) as [E|E]; simpl.
  - split; [split; [intros _; exact E | reflexivity] | contradiction].
  - split; [split; [discriminate | contradiction]|]. intros _. eauto.
Qed.

End Routes.

End EventWriteFacts.

(** ** The gate and the operations on the ledger *)

Module AuthFacts.

Import Schema Http Passport Ledger.

Lemma pre_save_usuario d : LoginLog.usuario (LoginLog.pre_save d) = LoginLog.usuario d.
Proof. unfold LoginLog.pre_save. now destruct (_ >? _). Qed.

Lemma pre_save_provider d : LoginLog.provider (LoginLog.pre_save d) = LoginLog.provider d.
Proof. unfold LoginLog.pre_save. now destruct (_ >? _). Qed.

Lemma find_filter {A} (f g : A -> bool) l :
  (forall x, f x = true -> g x = true) ->
  List.find f (List.filter g l) = List.find f l.
Proof.
  intros Hfg. induction l as [|a l IH]; simpl; [reflexivity|].
  destruct (g a) eqn:Hg; simpl.
  - destruct (f a); [reflexivity | exact IH].
  - destruct (f a) eqn:Hf; [|exact IH].
    apply Hfg in Hf. congruence.
Qed.

Lemma live_session_app mail now l l' :
  live_session mail now l -> live_session mail now (l ++ l').
Proof.
  intros (e & Hin & H). exists e. split; [|exact H]. apply in_or_app. now left.
Qed.

(** The outcome of one [save] inside a handler. *)
Lemma save_cases d coll :
  (exists errs, LoginLog.save d coll = inl errs)
  \/ (LoginLog.validate d = []
      /\ LoginLog.save d coll = inr (LoginLog.pre_save d, coll ++ [LoginLog.pre_save d])).
Proof.
  unfold LoginLog.save. destruct (LoginLog.validate d); [right | left]; eauto.
Qed.

Section Gate.

Variable jwt_sign : JwtPayload -> Z -> string.
Variable jwt_verify : string -> Z -> option JwtPayload.
Variable fromAuthHeaderAsBearerToken : option string -> option string.

Lemma requireAuth_inr t_jwt t_query req ledger p :
  requireAuth jwt_verify fromAuthHeaderAsBearerToken t_jwt t_query req ledger = inr p
  <-> exists tok,
        fromAuthHeaderAsBearerToken (authorization req) = Some tok
        /\ jwt_verify tok t_jwt = Some p
        /\ live_session (Js.toLowerCase (email p)) t_query ledger.
Proof.
  unfold requireAuth. split.
  - destruct (fromAuthHeaderAsBearerToken _) as [tok|]; [|discriminate].
    destruct (jwt_verify tok t_jwt) as [q|] eqn:Hv; [|discriminate].
    destruct (LedgerOps.jwt_verify_callback_spec t_query q ledger) as [[-> Hl] | [-> Hl]];
      [|discriminate].
    intros [= <-]. eauto.
  - intros (tok & -> & -> & Hl).
    destruct (LedgerOps.jwt_verify_callback_spec t_query p ledger) as [[-> _] | [_ Hno]];
      [reflexivity | contradiction].
Qed.

(** X6.  The gate fails closed: it lets a request through only as the
    payload to which the bearer token of its header verifies, and only
    when that payload's address has a live entry; every refusal is the
    bare 401 answer. *)
Theorem requireAuth_fails_closed t_jwt t_query req ledger :
  (forall p,
     requireAuth jwt_verify fromAuthHeaderAsBearerToken t_jwt t_query req ledger = inr p
     <-> exists tok,
           fromAuthHeaderAsBearerToken (authorization req) = Some tok
           /\ jwt_verify tok t_jwt = Some p
           /\ live_session (Js.toLowerCase (email p)) t_query ledger)
  /\ (forall r,
        requireAuth jwt_verify fromAuthHeaderAsBearerToken t_jwt t_query req ledger = inl r ->
        r = {| status := 401; body := Unauthorized |})
  /\ (fromAuthHeaderAsBearerToken (authorization req) = None ->
      requireAuth jwt_verify fromAuthHeaderAsBearerToken t_jwt t_query req ledger
      = inl {| status := 401; body := Unauthorized |}).
Proof.
  split; [intros p; apply requireAuth_inr|].
  split; [intros r; apply EventWriteFacts.requireAuth_rejection|].
  intros H. unfold requireAuth. now rewrite H.
Qed.

(** What the three writing operations do to the ledger: nothing, or one
    entry appended. *)
Lemma google_verify_appends t_sign t0 t1 oid profile ledger :
  exists suffix,
    snd (google_verify jwt_sign t_sign t0 t1 oid profile ledger) = ledger ++ suffix
    /\ (List.length suffix <= 1)%nat.
Proof.
  unfold google_verify.
  destruct (emails profile) as [|mail ?];
    [exists []; simpl; rewrite app_nil_r; auto|].
  destruct (photos profile) as [|photo ?];
    [exists []; simpl; rewrite app_nil_r; auto|].
  match goal with |- context [LoginLog.save ?d ledger] =>
    destruct (save_cases d ledger) as [[errs ->] | [_ ->]] end; simpl.
  - exists []. rewrite app_nil_r. auto.
  - eexists. split; [reflexivity | simpl; lia].
Qed.

Lemma authenticated_appends t_jwt t_query req handler ledger :
  (forall user, exists suffix,
      snd (handler user ledger) = ledger ++ suffix /\ (List.length suffix <= 1)%nat) ->
  exists suffix,
    snd (AuthRoutes.authenticated jwt_verify fromAuthHeaderAsBearerToken
           t_jwt t_query req handler ledger) = ledger ++ suffix
    /\ (List.length suffix <= 1)%nat.
Proof.
  intros Hh. unfold AuthRoutes.authenticated.
  destruct (requireAuth _ _ _ _ _ _) as [rej|user]; [|apply Hh].
  exists []. simpl. rewrite app_nil_r. auto.
Qed.

Lemma refresh_handler_appends t_sign t0 t1 oid req user ledger :
  exists suffix,
    snd (AuthRoutes.refresh_handler jwt_sign t_sign t0 t1 oid req user ledger)
    = ledger ++ suffix
    /\ (List.length suffix <= 1)%nat.
Proof.
  unfold AuthRoutes.refresh_handler.
  match goal with |- context [LoginLog.save ?d ledger] =>
    destruct (save_cases d ledger) as [[errs ->] | [_ ->]] end; simpl.
  - exists []. rewrite app_nil_r. auto.
  - eexists. split; [reflexivity | simpl; lia].
Qed.

Lemma logout_handler_appends t0 t1 t2 oid req user ledger :
  exists suffix,
    snd (AuthRoutes.logout_handler t0 t1 t2 oid req user ledger) = ledger ++ suffix
    /\ (List.length suffix <= 1)%nat.
Proof.
  unfold AuthRoutes.logout_handler.
  match goal with |- context [LoginLog.save ?d ledger] =>
    destruct (save_cases d ledger) as [[errs ->] | [_ ->]] end; simpl.
  - exists []. rewrite app_nil_r. auto.
  - eexists. split; [reflexivity | simpl; lia].
Qed.

Lemma step_appends ledger op :
  match op with Purge _ => False | _ => True end ->
  exists suffix,
    step jwt_sign jwt_verify fromAuthHeaderAsBearerToken ledger op = ledger ++ suffix
    /\ (List.length suffix <= 1)%nat.
Proof.
  destruct op; simpl; intros H; try contradiction.
  - apply google_verify_appends.
  - apply authenticated_appends. intros user. apply refresh_handler_appends.
  - apply authenticated_appends. intros user. apply logout_handler_appends.
Qed.

(** X7.  The ledger is append-only under login, refresh and logout: each
    leaves the entries it finds in place, in order, and appends at most
    one.  A purge adds nothing. *)
Theorem ledger_is_append_only ledger op :
  match op with
  | Purge _ =>
      forall d, In d (step jwt_sign jwt_verify fromAuthHeaderAsBearerToken ledger op) ->
                In d ledger
  | _ =>
      exists suffix,
        step jwt_sign jwt_verify fromAuthHeaderAsBearerToken ledger op = ledger ++ suffix
        /\ (List.length suffix <= 1)%nat
  end.
Proof.
  destruct op; try (apply step_appends; exact I).
  simpl. intros d Hd. now apply filter_In in Hd.
Qed.

(** X8.  No login, refresh or logout ends a session: a request that the
    gate accepts before the operation is accepted after it, with the same
    clock readings.  In particular the request accepted before
    [POST /logout] is accepted after it. *)
Theorem session_survives_writes t_jwt t_query req ledger p op :
  match op with Purge _ => False | _ => True end ->
  requireAuth jwt_verify fromAuthHeaderAsBearerToken t_jwt t_query req ledger = inr p ->
  requireAuth jwt_verify fromAuthHeaderAsBearerToken t_jwt t_query req
    (step jwt_sign jwt_verify fromAuthHeaderAsBearerToken ledger op) = inr p.
Proof.
  intros Hop Ha. destruct (step_appends ledger op Hop) as (suffix & -> & _).
  apply requireAuth_inr in Ha as (tok & Hh & Hv & Hl).
  apply requireAuth_inr. exists tok. repeat split; auto.
  now apply live_session_app.
Qed.

(** The two outcomes of the Google callback. *)
Lemma google_verify_cases t_sign t0 t1 oid profile ledger :
  match google_verify jwt_sign t_sign t0 t1 oid profile ledger with
  | (Some user, ledger') =>
      exists entry,
        ledger' = ledger ++ [entry]
        /\ LoginLog._id entry = oid
        /\ LoginLog.usuario entry = Js.toLowerCase (user_email user)
        /\ LoginLog.token entry = user_token user
        /\ user_token user
           = jwt_sign {| id := user_id user; email := user_email user;
                         name := user_name user; provider := "google" |} t_sign
        /\ LoginLog.provider entry = "google"
        /\ LoginLog.loginType entry = "login"
        /\ LoginLog.timestamp entry = t1
        /\ LoginLog.caducidad entry = Z.min (t0 + day) (t1 + LoginLog.thirty_days)
        /\ t1 < t0 + day
        /\ email_validator (Js.toLowerCase (user_email user)) = true
  | (None, ledger') => ledger' = ledger
  end.
Proof.
  unfold google_verify.
  destruct (emails profile) as [|mail ?]; [reflexivity|].
  destruct (photos profile) as [|photo ?]; [reflexivity|].
  match goal with |- context [LoginLog.save ?d ledger] =>
    set (loginLog := d); destruct (save_cases loginLog ledger) as [[errs ->] | [Hv ->]] end;
    [reflexivity|].
  exists (LoginLog.pre_save loginLog).
  split; [reflexivity|].
  split; [unfold LoginLog.pre_save; now destruct (_ >? _)|].
  rewrite pre_save_usuario, LedgerFacts.pre_save_token, pre_save_provider,
    LedgerFacts.pre_save_loginType, LedgerFacts.pre_save_timestamp,
    LedgerFacts.pre_save_caducidad.
  repeat (split; [reflexivity|]).
  split; [apply (LedgerFacts.validate_nil_caducidad loginLog Hv)|].
  cbn [user_email].
  destruct (email_validator (Js.toLowerCase mail)) eqn:E; [reflexivity|].
  destruct (EmailFacts.loginlog_validate_usuario loginLog E) as [msg Hin].
  rewrite Hv in Hin. contradiction Hin.
Qed.

(** X9.  The Google callback signs a user in exactly when it has written
    the login entry: with a user come one appended entry for the user's
    address in lower case, which the e-mail validator accepts, carrying
    the user's token, of provider [google] and type [login], issued at
    the later clock reading and expiring 24 hours after the earlier one
    (the thirty-day clamp apart); without a user the ledger is as
    before. *)
Theorem google_login_writes_or_fails t_sign t0 t1 oid profile ledger :
  match google_verify jwt_sign t_sign t0 t1 oid profile ledger with
  | (Some user, ledger') =>
      exists entry,
        ledger' = ledger ++ [entry]
        /\ LoginLog._id entry = oid
        /\ LoginLog.usuario entry = Js.toLowerCase (user_email user)
        /\ LoginLog.token entry = user_token user
        /\ user_token user
           = jwt_sign {| id := user_id user; email := user_email user;
                         name := user_name user; provider := "google" |} t_sign
        /\ LoginLog.provider entry = "google"
        /\ LoginLog.loginType entry = "login"
        /\ LoginLog.timestamp entry = t1
        /\ LoginLog.caducidad entry = Z.min (t0 + day) (t1 + LoginLog.thirty_days)
        /\ t1 < t0 + day
        /\ email_validator (Js.toLowerCase (user_email user)) = true
  | (None, ledger') => ledger' = ledger
  end.
Proof. apply google_verify_cases. Qed.

(** X10.  After a successful Google login, a request that bears the
    user's token is accepted at every instant before the expiry of the
    entry, as long as the token verifies then to a payload with the
    user's address. *)
Theorem login_then_authenticated
    t_sign t0 t1 oid profile ledger user ledger' t_jwt t_query req p :
  google_verify jwt_sign t_sign t0 t1 oid profile ledger = (Some user, ledger') ->
  fromAuthHeaderAsBearerToken (authorization req) = Some (user_token user) ->
  jwt_verify (user_token user) t_jwt = Some p ->
  email p = user_email user ->
  t_query < Z.min (t0 + day) (t1 + LoginLog.thirty_days) ->
  requireAuth jwt_verify fromAuthHeaderAsBearerToken t_jwt t_query req ledger' = inr p.
Proof.
  intros Hg Hh Hv He Ht.
  pose proof (google_verify_cases t_sign t0 t1 oid profile ledger) as H.
  rewrite Hg in H. destruct H as (entry & -> & _ & Hu & _ & _ & _ & _ & _ & Hc & _).
  apply requireAuth_inr. exists (user_token user).
  split; [exact Hh|]. split; [exact Hv|].
  exists entry. split; [apply in_or_app; right; now left|].
  rewrite He, Hu, Hc. auto.
Qed.

End Gate.

End AuthFacts.

(** ** Refresh, token validity and the purge *)

Module SessionFacts.

Import Schema Http Passport Ledger.

Section Gate.

Variable jwt_sign : JwtPayload -> Z -> string.
Variable jwt_verify : string -> Z -> option JwtPayload.
Variable fromAuthHeaderAsBearerToken : option string -> option string.

(** X11.  [POST /refresh] answers 200 exactly when it has appended one
    entry: the entry is of type [refresh], for the address of the
    authenticated user in lower case, carries the new token of the
    answer, is issued at the later clock reading and expires 24 hours
    after the earlier one (the thirty-day clamp apart).  With any other
    answer the ledger is as before. *)
Theorem refresh_appends_one_entry t_jwt t_query t_sign t0 t1 oid req ledger :
  let r := AuthRoutes.post_refresh jwt_sign jwt_verify fromAuthHeaderAsBearerToken
             t_jwt t_query t_sign t0 t1 oid req ledger in
  (status (fst r) = 200%nat ->
   exists user entry,
     requireAuth jwt_verify fromAuthHeaderAsBearerToken t_jwt t_query req ledger = inr user
     /\ snd r = ledger ++ [entry]
     /\ body (fst r) = Token (jwt_sign user t_sign) "24h"
     /\ LoginLog.token entry = jwt_sign user t_sign
     /\ LoginLog.usuario entry = Js.toLowerCase (email user)
     /\ LoginLog.provider entry = provider user
     /\ LoginLog.loginType entry = "refresh"
     /\ LoginLog.timestamp entry = t1
     /\ LoginLog.caducidad entry = Z.min (t0 + day) (t1 + LoginLog.thirty_days))
  /\ (status (fst r) <> 200%nat -> snd r = ledger).
Proof.
  cbn zeta. unfold AuthRoutes.post_refresh, AuthRoutes.authenticated.
  destruct (requireAuth _ _ _ _ _ _) as [rej|user] eqn:Ha.
  { apply EventWriteFacts.requireAuth_rejection in Ha. subst rej. simpl.
    split; [discriminate | reflexivity]. }
  unfold AuthRoutes.refresh_handler.
  match goal with |- context [LoginLog.save ?d ledger] =>
    set (refreshLog := d);
    destruct (AuthFacts.save_cases refreshLog ledger) as [[errs ->] | [Hv ->]] end; simpl.
  - split; [discriminate | reflexivity].
  - split; [|intros H; contradiction H; reflexivity].
    intros _. exists user, (LoginLog.pre_save refreshLog).
    rewrite AuthFacts.pre_save_usuario, LedgerFacts.pre_save_token,
      AuthFacts.pre_save_provider, LedgerFacts.pre_save_loginType,
      LedgerFacts.pre_save_timestamp, LedgerFacts.pre_save_caducidad.
    repeat (split; [reflexivity|]). reflexivity.
Qed.

Lemma purge_keeps_find (f : LoginLog.doc -> bool) new_Date now coll :
  new_Date <= now ->
  (forall d, f d = true -> now < LoginLog.caducidad d) ->
  List.find f (snd (LoginLog.cleanExpiredTokens new_Date coll)) = List.find f coll.
Proof.
  intros Hle Hf. simpl. apply AuthFacts.find_filter.
  intros d Hd. apply Hf in Hd. unfold LoginLog.expired.
  destruct (Z.ltb_spec (LoginLog.caducidad d) new_Date); [lia | reflexivity].
Qed.

(** X12.  Purging the expired entries changes no answer about validity
    at or after the instant of the purge: [isTokenValid] finds the same
    entry and the gate gives the same answer on the purged ledger as on
    the ledger before. *)
Theorem purge_changes_no_answer new_Date now ledger :
  new_Date <= now ->
  (forall tok,
     LoginLog.isTokenValid tok now (snd (LoginLog.cleanExpiredTokens new_Date ledger))
     = LoginLog.isTokenValid tok now ledger)
  /\ (forall t_jwt req,
        requireAuth jwt_verify fromAuthHeaderAsBearerToken t_jwt now req
          (snd (LoginLog.cleanExpiredTokens new_Date ledger))
        = requireAuth jwt_verify fromAuthHeaderAsBearerToken t_jwt now req ledger).
Proof.
  intros Hle. split.
  - intros tok. unfold LoginLog.isTokenValid. apply (purge_keeps_find _ _ now); [exact Hle|].
    intros d Hd. apply andb_true_iff in Hd as [_ Hd]. lia.
  - intros t_jwt req. unfold requireAuth, jwt_verify_callback, LoginLog.findOne_live_for_user.
    destruct (fromAuthHeaderAsBearerToken _) as [tok|]; [|reflexivity].
    destruct (jwt_verify tok t_jwt) as [p|]; [|reflexivity].
    rewrite (purge_keeps_find _ _ now); [reflexivity | exact Hle|].
    intros d Hd. apply andb_true_iff in Hd as [_ Hd]. lia.
Qed.

End Gate.

(** X13.  [isTokenValid] returns an entry of the ledger that carries
    exactly the given token and expires after the given instant, the
    first such entry in the order of the ledger; it returns nothing
    exactly when every entry with that token has expired. *)
Theorem isTokenValid_exact tok now ledger :
  (forall d, LoginLog.isTokenValid tok now ledger = Some d ->
     exists before after,
       ledger = before ++ d :: after
       /\ LoginLog.token d = tok /\ now < LoginLog.caducidad d
       /\ Forall (fun e => LoginLog.token e = tok -> LoginLog.caducidad e <= now) before)
  /\ (LoginLog.isTokenValid tok now ledger = None
      <-> Forall (fun e => LoginLog.token e = tok -> LoginLog.caducidad e <= now) ledger).
Proof.
  unfold LoginLog.isTokenValid.
  induction ledger as [|e ledger [IH1 IH2]]; simpl.
  - split; [discriminate|]. split; [constructor | reflexivity].
  - destruct (String.eqb_spec (LoginLog.token e) tok) as [Et|Et]; simpl.
    + destruct (Z.gtb_spec (LoginLog.caducidad e) now) as [Ec|Ec].
      * split.
        -- intros d [= <-]. exists [], ledger. repeat split; auto; lia.
        -- split; [discriminate|]. intros H. inversion H as [|? ? H1 _]; subst.
           specialize (H1 eq_refl). lia.
      * split.
        -- intros d Hd. destruct (IH1 d Hd) as (before & after & -> & H1 & H2 & H3).
           exists (e :: before), after. repeat split; auto.
        -- rewrite IH2. split; [intros H; constructor; auto | intros H; now inversion H].
    + split.
      * intros d Hd. destruct (IH1 d Hd) as (before & after & -> & H1 & H2 & H3).
        exists (e :: before), after. repeat split; auto. constructor; [|exact H3].
        intros H. contradiction.
      * rewrite IH2. split; [intros H; constructor; [intros; contradiction | auto]
                            | intros H; now inversion H].
Qed.

End SessionFacts.

(** ** Reading the ledger: recent logs, logs of a user, pages, counts *)

Module LogFacts.

Import Schema Http Passport LogQueries LogRoutes.

(** Not earlier than: the order of [.sort({ timestamp: -1 })]. *)
Lemma insert_desc_In d x l : In x (insert_desc d l) <-> x = d \/ In x l.
Proof.
  induction l as [|e l IH]; simpl; [intuition|].
  destruct (LoginLog.timestamp e <=? LoginLog.timestamp d); simpl; [intuition|].
  rewrite IH. intuition.
Qed.

Lemma insert_desc_perm d l : Permutation (d :: l) (insert_desc d l).
Proof.
  induction l as [|e l IH]; simpl; [reflexivity|].
  destruct (LoginLog.timestamp e <=? LoginLog.timestamp d); [reflexivity|].
  etransitivity; [apply perm_swap | now constructor].
Qed.

Lemma sort_desc_perm l : Permutation l (sort_desc l).
Proof.
  induction l as [|e l IH]; simpl; [constructor|].
  etransitivity; [|apply insert_desc_perm]. now constructor.
Qed.

Lemma sort_desc_In x l : In x (sort_desc l) <-> In x l.
Proof.
  split; apply Permutation_in; [symmetry|]; apply sort_desc_perm.
Qed.

Lemma sort_desc_length l : List.length (sort_desc l) = List.length l.
Proof. symmetry. apply Permutation_length, sort_desc_perm. Qed.

Lemma insert_desc_sorted d l :
  StronglySorted (fun a b => LoginLog.timestamp b <= LoginLog.timestamp a) l ->
  StronglySorted (fun a b => LoginLog.timestamp b <= LoginLog.timestamp a) (insert_desc d l).
Proof.
  induction 1 as [|e l Hs IH He]; simpl.
  - repeat constructor.
  - destruct (Z.leb_spec (LoginLog.timestamp e) (LoginLog.timestamp d)) as [Hle|Hgt].
    + constructor; [now constructor|].
      constructor; [exact Hle|].
      eapply List.Forall_impl; [|exact He]. intros x Hx. simpl in Hx. lia.
    + constructor; [exact IH|].
      apply List.Forall_forall. intros x Hx. apply insert_desc_In in Hx as [-> | Hx].
      * lia.
      * rewrite List.Forall_forall in He. now apply He.
Qed.

Lemma sort_desc_sorted l :
  StronglySorted (fun a b => LoginLog.timestamp b <= LoginLog.timestamp a) (sort_desc l).
Proof.
  induction l as [|e l IH]; simpl; [constructor | now apply insert_desc_sorted].
Qed.

(** In a sorted list every element of a prefix is related to every
    element of the rest. *)
Lemma sorted_app_inv {A} (R : A -> A -> Prop) l1 l2 :
  StronglySorted R (l1 ++ l2) ->
  StronglySorted R l1 /\ forall x y, In x l1 -> In y l2 -> R x y.
Proof.
  induction l1 as [|a l1 IH]; simpl; intros H.
  - split; [constructor | contradiction].
  - inversion H as [|? ? Hs Ha]; subst. destruct (IH Hs) as [IH1 IH2].
    rewrite List.Forall_forall in Ha. split.
    + constructor; [exact IH1|]. apply List.Forall_forall. intros x Hx.
      apply Ha, in_or_app. now left.
    + intros x y [<- | Hx] Hy; [apply Ha, in_or_app; now right | now apply IH2].
Qed.

Lemma limit_split {A} n (l : list A) : exists rest, l = limit n l ++ rest.
Proof.
  destruct n as [|n]; simpl.
  - exists []. now rewrite app_nil_r.
  - exists (skipn (S n) l). symmetry. apply (firstn_skipn (S n)).
Qed.

Lemma limit_length {A} n (l : list A) :
  List.length (limit n l)
  = match n with O => List.length l | _ => Nat.min n (List.length l) end.
Proof. destruct n; simpl limit; [reflexivity | apply List.length_firstn]. Qed.

(** A log read with [select('-token')] is written without a token and
    without a preview; its address and its timestamp are those
    stored. *)
Lemma selected_json d :
  let m := LoginLog.transform (select_no_token d) in
  m !! "token" = None /\ m !! "tokenPreview" = None
  /\ m !! "usuario" = Some (JStr (LoginLog.usuario d))
  /\ m !! "timestamp" = Some (JDate (LoginLog.timestamp d)).
Proof. destruct d. cbn zeta. repeat split; vm_compute; reflexivity. Qed.

Lemma json_logs_selected (P : gmap string JsVal -> Prop) (Q : LoginLog.doc -> Prop) docs :
  (forall d, Q d -> P (LoginLog.transform (select_no_token d))) ->
  Forall Q docs ->
  Forall P (json_logs (List.map select_no_token docs)).
Proof.
  intros HPQ H. unfold json_logs. rewrite List.map_map.
  apply List.Forall_forall. intros m Hm. apply in_map_iff in Hm as (d & <- & Hd).
  rewrite List.Forall_forall in H. auto.
Qed.

Lemma sorted_limit_desc n l :
  StronglySorted (fun a b => LoginLog.timestamp b <= LoginLog.timestamp a)
    (limit n (sort_desc l))
  /\ (forall d, In d (limit n (sort_desc l)) -> In d l)
  /\ (forall d e, In d (limit n (sort_desc l)) -> In e l ->
        ~ In e (limit n (sort_desc l)) ->
        LoginLog.timestamp e <= LoginLog.timestamp d).
Proof.
  destruct (limit_split n (sort_desc l)) as [rest Hsplit].
  pose proof (sort_desc_sorted l) as Hs. rewrite Hsplit in Hs.
  apply sorted_app_inv in Hs as [Hs1 Hs2].
  split; [exact Hs1|]. split.
  - intros d Hd. apply sort_desc_In. rewrite Hsplit. apply in_or_app. now left.
  - intros d e Hd He Hne. apply Hs2; [exact Hd|].
    apply sort_desc_In in He. rewrite Hsplit in He.
    apply in_app_or in He as [He|He]; [contradiction | exact He].
Qed.

(** X14.  [getRecentLogs] reads the latest entries of the ledger: as
    many as the limit (100 when none is given, all of them when it is 0)
    or as there are, from the latest on, none of them later than an
    entry it leaves out; what is written of them has neither token nor
    preview. *)
Theorem recent_logs_are_the_latest n coll :
  let docs := recent_docs n coll in
  List.length docs
  = match default 100%nat n with
    | O => List.length coll
    | k => Nat.min k (List.length coll)
    end
  /\ StronglySorted (fun a b => LoginLog.timestamp b <= LoginLog.timestamp a) docs
  /\ (forall d, In d docs -> In d coll)
  /\ (forall d e, In d docs -> In e coll -> ~ In e docs ->
        LoginLog.timestamp e <= LoginLog.timestamp d)
  /\ Forall (fun m : gmap string JsVal => m !! "token" = None /\ m !! "tokenPreview" = None)
       (json_logs (getRecentLogs n coll)).
Proof.
  cbn zeta. unfold getRecentLogs, recent_docs.
  split; [rewrite limit_length, sort_desc_length; now destruct (default 100%nat n)|].
  destruct (sorted_limit_desc (default 100%nat n) coll) as (H1 & H2 & H3).
  split; [exact H1|]. split; [exact H2|]. split; [exact H3|].
  apply (json_logs_selected _ (fun _ => True)).
  - intros d _. destruct (selected_json d) as (Ht & Hp & _). auto.
  - apply List.Forall_forall. auto.
Qed.

Lemma user_docs_by_user email n coll :
  Forall (fun d => LoginLog.usuario d = Js.toLowerCase email) (user_docs email n coll).
Proof.
  apply List.Forall_forall. intros d Hd. unfold user_docs in Hd.
  destruct (sorted_limit_desc (default 50%nat n) (List.filter (by_user email) coll))
    as (_ & H & _).
  apply H, filter_In in Hd as [_ Hd]. now apply String.eqb_eq in Hd.
Qed.

Section Authenticated.

Variable jwt_verify : string -> Z -> option JwtPayload.
Variable fromAuthHeaderAsBearerToken : option string -> option string.

(** X15.  [GET /api/auth/profile] shows an authenticated user at most
    five logs, every one of them an entry for the user's own address in
    lower case, written without token and without preview. *)
Theorem profile_shows_own_logs t_jwt t_query req coll user logs :
  get_profile jwt_verify fromAuthHeaderAsBearerToken t_jwt t_query req coll
  = inr (user, logs) ->
  requireAuth jwt_verify fromAuthHeaderAsBearerToken t_jwt t_query req coll = inr user
  /\ (List.length logs <= 5)%nat
  /\ Forall (fun m : gmap string JsVal =>
               m !! "usuario" = Some (JStr (Js.toLowerCase (email user)))
               /\ m !! "token" = None /\ m !! "tokenPreview" = None) logs.
Proof.
  unfold get_profile.
  destruct (requireAuth _ _ _ _ _ _) as [rej|u]; [discriminate|].
  intros [= -> <-]. split; [reflexivity|]. split.
  - unfold json_logs, getUserLogs, user_docs. rewrite !List.length_map.
    apply (firstn_le_length 5).
  - unfold getUserLogs.
    apply (json_logs_selected _ (fun d => LoginLog.usuario d = Js.toLowerCase (email user))).
    + intros d Hd. destruct (selected_json d) as (Ht & Hp & Hu & _).
      rewrite Hu, Hd. auto.
    + apply user_docs_by_user.
Qed.

End Authenticated.

Lemma ceil_div_lt n L p :
  (0 < L)%nat -> (0 < p)%nat -> (ceil_div n L < p <-> n <= (p - 1) * L)%nat.
Proof.
  intros HL Hp. unfold ceil_div. destruct p as [|p]; [lia|].
  simpl. rewrite Nat.sub_0_r. split.
  - intros H.
    destruct (Nat.le_gt_cases n (p * L)) as [Hle|Hgt]; [exact Hle|].
    exfalso. assert (S p <= (n + L - 1) / L)%nat; [|lia].
    apply Nat.div_le_lower_bound; [lia|]. nia.
  - intros H. apply Nat.Div0.div_lt_upper_bound. nia.
Qed.

Lemma page_length L k m :
  List.length
    (json_logs (List.map select_no_token (limit (Pos.to_nat L) (skipn k (sort_desc m)))))
  = Nat.min (Pos.to_nat L) (List.length m - k).
Proof.
  unfold json_logs. rewrite !List.length_map, limit_length.
  rewrite List.length_skipn, sort_desc_length.
  pose proof (Pos2Nat.is_pos L). destruct (Pos.to_nat L); [lia | reflexivity].
Qed.

(** X16.  [GET /api/logs] on parameters that are left out or are decimal
    numerals of positive integers:
    the page limit is at most 1000 and the page holds as many logs as the
    limit or as are left after the pages before it; [hasNext] holds
    exactly when the next page is not empty; a page is empty exactly when
    its number exceeds [totalPages]; [hasPrev] holds exactly from the
    second page on; and no log of the page has a token or a preview. *)
Theorem pagination_is_consistent q_limit q_page q_user coll :
  let logs := fst (get_logs q_limit q_page q_user coll) in
  let pg := snd (get_logs q_limit q_page q_user coll) in
  let next := fst (get_logs q_limit (Some (Pos.succ (page pg))) q_user coll) in
  (Pos.to_nat (page_limit pg) <= 1000)%nat
  /\ List.length logs
     = Nat.min (Pos.to_nat (page_limit pg))
         (total pg - (Pos.to_nat (page pg) - 1) * Pos.to_nat (page_limit pg))
  /\ (hasNext pg = true <-> next <> [])
  /\ (logs = [] <-> (totalPages pg < Pos.to_nat (page pg))%nat)
  /\ (hasPrev pg = true <-> page pg <> 1%positive)
  /\ Forall (fun m : gmap string JsVal => m !! "token" = None /\ m !! "tokenPreview" = None)
       logs.
Proof.
  cbn zeta. unfold get_logs.
  cbn [fst snd page page_limit hasNext hasPrev totalPages total].
  set (L := Pos.min (default 100%positive q_limit) 1000).
  set (p := default 1%positive q_page).
  set (matching := match q_user with
                   | Some user =>
                       if Js.truthy user
                       then List.filter (by_user (Js.toLowerCase user)) coll
                       else coll
                   | None => coll
                   end).
  cbn [from_option id].
  pose proof (Pos2Nat.is_pos L) as HL. pose proof (Pos2Nat.is_pos p) as Hp.
  split; [unfold L; lia|].
  split; [apply page_length|].
  split.
  { rewrite Nat.ltb_lt, <- length_zero_iff_nil, page_length.
    unfold Datatypes.id. rewrite Pos2Nat.inj_succ. nia. }
  split.
  { rewrite <- length_zero_iff_nil, page_length, ceil_div_lt by assumption. lia. }
  split; [rewrite Pos.ltb_lt; lia|].
  apply (json_logs_selected _ (fun _ => True)).
  - intros d _. destruct (selected_json d) as (Ht & Hpv & _). auto.
  - apply List.Forall_forall. auto.
Qed.

(** X17.  The breakdown of the statistics holds, for each value of the
    grouped path, the number of entries with that value, and no key for
    a value that no entry has. *)
Theorem breakdown_counts_entries (key : LoginLog.doc -> string) coll k :
  count_by key coll !! k
  = match List.length (List.filter (fun d => String.eqb (key d) k) coll) with
    | O => None
    | c => Some c
    end.
Proof.
  induction coll as [|d coll IH]; simpl; [apply lookup_empty|].
  rewrite lookup_insert.
  destruct (decide (key d = k)) as [E|E].
  - subst k. rewrite String.eqb_refl. simpl. rewrite IH.
    now destruct (List.length _).
  - apply String.eqb_neq in E. rewrite E. exact IH.
Qed.

End LogFacts.

(** ** Reading events *)

Module EventReadFacts.

Import Http Passport EventQueries Geo.

(** X18.  The default listing of [GET /api/events] holds the next events:
    at most 100 of them, as many as there are when fewer, none before the
    instant of the query, in ascending order of timestamp, and none of
    them later than an upcoming event that is left out. *)
Theorem upcoming_are_the_next now events :
  let found := upcoming now events in
  List.length found
  = Nat.min 100 (List.length (List.filter (fun d => now <=? Event.timestamp d) events))
  /\ StronglySorted (fun a b => Event.timestamp a <= Event.timestamp b) found
  /\ (forall d, In d found -> In d events /\ now <= Event.timestamp d)
  /\ (forall d e, In d found -> In e events -> now <= Event.timestamp e ->
        ~ In e found -> Event.timestamp d <= Event.timestamp e).
Proof.
  cbn zeta. unfold upcoming.
  set (future := List.filter (fun d => now <=? Event.timestamp d) events).
  pose proof (GeoFacts.sort_sorted future) as Hs.
  rewrite <- (firstn_skipn 100 (Event.sort_by_timestamp future)) in Hs.
  apply LogFacts.sorted_app_inv in Hs as [Hs1 Hs2].
  assert (Hin : forall d, In d (Event.sort_by_timestamp future)
                  <-> In d events /\ now <= Event.timestamp d).
  { intros d. rewrite GeoFacts.sort_In. unfold future. rewrite filter_In, Z.leb_le. tauto. }
  split.
  { rewrite List.length_firstn. f_equal. symmetry.
    apply Permutation_length, GeoFacts.sort_perm. }
  split; [exact Hs1|]. split.
  - intros d Hd. apply Hin.
    rewrite <- (firstn_skipn 100 (Event.sort_by_timestamp future)).
    apply in_or_app. now left.
  - intros d e Hd He Hnow Hne. apply Hs2; [exact Hd|].
    assert (H : In e (Event.sort_by_timestamp future)) by (apply Hin; auto).
    rewrite <- (firstn_skipn 100 (Event.sort_by_timestamp future)) in H.
    apply in_app_or in H as [H|H]; [contradiction | exact H].
Qed.

(** X20.  A wider radius and an earlier instant find no less: every event
    that [findNearby] returns is returned again for the same point when
    the radius is not smaller and the instant of the query not later. *)
Theorem findNearby_is_monotone now now' qlat qlon r r' coll d :
  (r <= r')%Q -> now' <= now ->
  In d (Event.findNearby now qlat qlon (Some r) coll) ->
  In d (Event.findNearby now' qlat qlon (Some r') coll).
Proof.
  unfold Event.findNearby. cbn [from_option id]. unfold Datatypes.id.
  intros Hr Hnow. rewrite !GeoFacts.sort_In, !filter_In, !GeoFacts.nearby_iff.
  unfold in_box. intros (Hin & (H1 & H2 & H3 & H4) & Ht).
  split; [exact Hin|]. split; [|lia].
  repeat split; lra.
Qed.

Section Routes.

Variable jwt_verify : string -> Z -> option JwtPayload.
Variable fromAuthHeaderAsBearerToken : option string -> option string.

(** X19.  [GET /api/events/user/my-events] lists exactly the events whose
    organizer is the address of the authenticated user in lower case,
    past ones included, in ascending order of timestamp, with their
    number as [count]. *)
Theorem my_events_are_the_callers t_jwt t_query req ledger events count found :
  get_my_events jwt_verify fromAuthHeaderAsBearerToken t_jwt t_query req ledger events
  = inr (Listed count found) ->
  exists user,
    requireAuth jwt_verify fromAuthHeaderAsBearerToken t_jwt t_query req ledger = inr user
    /\ count = List.length found
    /\ (forall d, In d found <->
          In d events /\ Event.organizador d = Js.toLowerCase (email user))
    /\ StronglySorted (fun a b => Event.timestamp a <= Event.timestamp b) found
    /\ Permutation found
         (List.filter (fun d => String.eqb (Event.organizador d) (Js.toLowerCase (email user)))
            events).
Proof.
  unfold get_my_events, listed, my_events.
  destruct (requireAuth _ _ _ _ _ _) as [rej|user]; [discriminate|].
  intros [= <- <-]. exists user. split; [reflexivity|]. split; [reflexivity|].
  split.
  { intros d. rewrite GeoFacts.sort_In, filter_In. unfold by_organizer.
    now rewrite String.eqb_eq. }
  split; [apply GeoFacts.sort_sorted|].
  symmetry. apply GeoFacts.sort_perm.
Qed.

End Routes.

(** X22.  The identifier handed to the image store is the file name of the
    image URL without its extension, under the folder [eventos]: for a
    URL that ends in [/name.ext], with [name] free of slashes and dots
    and [ext] free of slashes, it is [eventos/name]. *)
Theorem image_to_delete_of_url prefix name ext :
  Js.has_char "/" name = false ->
  Js.has_char "." name = false ->
  Js.has_char "/" ext = false ->
  image_to_delete (prefix ++ "/" ++ name ++ "." ++ ext)%string = ("eventos/" ++ name)%string.
Proof.
  intros Hn1 Hn2 He. unfold image_to_delete, publicId. f_equal.
  change (prefix ++ "/" ++ name ++ "." ++ ext)%string
    with (prefix ++ String "/" (name ++ String "." ext))%string.
  rewrite JsFacts.after_last_append.
  - clear Hn1. induction name as [|a name IH]; simpl.
    + reflexivity.
    + simpl in Hn2. apply orb_false_iff in Hn2 as [Ha Hn2]. rewrite Ha.
      now rewrite IH.
  - rewrite JsFacts.has_char_append, Hn1. simpl. exact He.
Qed.

(** X23.  The [toJSON] transform of an event that has an [_id] writes it
    as [id], drops [_id] and [__v], and leaves every other field as it
    is. *)
Theorem event_transform_renames_id {V} (ret : gmap string V) v :
  ret !! "_id" = Some v ->
  transform ret !! "id" = Some v
  /\ transform ret !! "_id" = None
  /\ transform ret !! "__v" = None
  /\ (forall k, k <> "id" -> k <> "_id" -> k <> "__v" -> transform ret !! k = ret !! k).
Proof.
  intros H. unfold transform. rewrite H.
  split; [rewrite !lookup_delete_ne by discriminate; apply lookup_insert_eq|].
  split; [rewrite lookup_delete_ne by discriminate; apply lookup_delete_eq|].
  split; [apply lookup_delete_eq|].
  intros k H1 H2 H3.
  rewrite !lookup_delete_ne by congruence. apply lookup_insert_ne. congruence.
Qed.

End EventReadFacts.

(** ** The CORS origin check *)

Module ServerFacts.

Import Server Shape.

Lemma constant_origins_are_vercel o :
  o = "https://eventual-frontend.vercel.app" \/ o = "https://eventual.vercel.app" ->
  Js.includes "vercel.app" o = true.
Proof. intros [-> | ->]; reflexivity. Qed.

Lemma truthy_iff (o : string) : Js.truthy o = true <-> o <> "".
Proof. destruct o; simpl; split; congruence. Qed.

Lemma allowedOrigins_In FRONTEND_URL x :
  In x (allowedOrigins FRONTEND_URL)
  <-> x = "https://eventual-frontend.vercel.app" \/ x = "https://eventual.vercel.app"
      \/ (x <> "" /\ FRONTEND_URL = Some x).
Proof.
  unfold allowedOrigins. rewrite filter_In, truthy_iff. simpl. split.
  - intros [[H|[H|[H|[]]]] Hne]; [now left | now right; left|].
    right. right. split; [exact Hne|].
    destruct FRONTEND_URL as [u|]; simpl in H; [now subst | congruence].
  - intros [->|[->|[Hne ->]]]; (split; [|congruence || discriminate]); simpl; auto.
Qed.

Lemma some_origin_allowed FRONTEND_URL o :
  existsb (fun allowed => String.eqb o allowed || Js.includes "vercel.app" o)
    (allowedOrigins FRONTEND_URL) = true
  <-> Js.includes "vercel.app" o = true \/ (o <> "" /\ FRONTEND_URL = Some o).
Proof.
  rewrite existsb_exists. split.
  - intros (x & Hx & Hf). apply orb_true_iff in Hf as [Hf|Hf]; [|now left].
    apply String.eqb_eq in Hf as <-.
    apply allowedOrigins_In in Hx as [H|[H|H]];
      [left; apply constant_origins_are_vercel; auto
      |left; apply constant_origins_are_vercel; auto
      |now right].
  - intros [Hv | [Hne HF]].
    + exists "https://eventual.vercel.app". split.
      * apply allowedOrigins_In. auto.
      * rewrite Hv. apply orb_true_r.
    + exists o. split.
      * apply allowedOrigins_In. auto.
      * now rewrite String.eqb_refl.
Qed.

(** X21.  Outside production every origin is allowed.  In production a
    request without origin is allowed, and an origin is allowed exactly
    when it is empty, contains [vercel.app] anywhere, or is the configured
    front end. *)
Theorem cors_origin_exact FRONTEND_URL :
  (forall origin, cors_origin false FRONTEND_URL origin = true)
  /\ cors_origin true FRONTEND_URL None = true
  /\ (forall o, cors_origin true FRONTEND_URL (Some o) = true
                <-> production_origin FRONTEND_URL o).
Proof.
  split.
  { intros [o|]; [|reflexivity]. unfold cors_origin. simpl.
    destruct (Js.truthy o); simpl; [|reflexivity].
    now destruct (Js.includes "localhost" o). }
  split; [reflexivity|].
  intros o. unfold cors_origin, production_origin.
  pose proof (some_origin_allowed FRONTEND_URL o) as Hsome.
  destruct (existsb _ (allowedOrigins FRONTEND_URL));
    destruct (Js.truthy o) eqn:Ht; simpl.
  - split; [intros _; right; now apply Hsome | reflexivity].
  - split; [intros _; left | reflexivity]. destruct o; [reflexivity | discriminate Ht].
  - apply truthy_iff in Ht. split; [discriminate|].
    intros [H|H]; [contradiction|]. now apply Hsome in H.
  - split; [intros _; left | reflexivity]. destruct o; [reflexivity | discriminate Ht].
Qed.

End ServerFacts.

(** ** The shape of an accepted address *)

Module AddressFacts.

Import Regex Schema Shape.

Lemma all_chars_append q (a b : string) :
  Js.all_chars q (a ++ b)%string = Js.all_chars q a && Js.all_chars q b.
Proof.
  induction a as [|x a IH]; simpl; [reflexivity|]. rewrite IH. apply andb_assoc.
Qed.

Lemma matches_within q r s :
  Matches r s -> classes_within q r -> Js.all_chars q s = true.
Proof.
  induction 1 as [|p c Hp|r1 r2 s1 s2 H1 IH1 H2 IH2|r1 r2 s H IH|r1 r2 s H IH
                 |r|r s1 s2 H1 IH1 H2 IH2]; simpl; intros Hw.
  - reflexivity.
  - now rewrite (Hw c Hp).
  - destruct Hw as [Hw1 Hw2]. rewrite all_chars_append, IH1, IH2; auto.
  - apply IH, Hw.
  - apply IH, Hw.
  - reflexivity.
  - rewrite all_chars_append, IH1, IH2; auto.
Qed.

Lemma address_char_word c : Js.is_word c = true -> address_char c = true.
Proof. unfold address_char. now intros ->. Qed.

Lemma dotted_words_within : classes_within address_char dotted_words.
Proof.
  unfold dotted_words, Plus, Opt, word, dot_or_dash. simpl.
  repeat split; auto using address_char_word.
  intros c H. unfold address_char. apply orb_true_iff in H as [-> | ->];
    [now rewrite orb_true_r | apply orb_true_r].
Qed.

Lemma tld_within : classes_within address_char (Plus tld_group).
Proof.
  unfold tld_group, Rep23, Plus, Opt, word, dot. simpl.
  assert (Hd : forall c : ascii, Ascii.eqb c "." = true -> address_char c = true).
  { intros c H. unfold address_char. rewrite H. now rewrite orb_true_r. }
  repeat split; auto using address_char_word.
Qed.

Lemma dotted_words_nonempty s : Matches dotted_words s -> s <> "".
Proof.
  unfold dotted_words, Plus. intros H.
  apply EmailFacts.cat_shape in H as (a & b & -> & Ha & _).
  apply EmailFacts.cat_shape in Ha as (c & d & -> & Hc & _).
  apply EmailFacts.class_shape in Hc as (x & -> & _). discriminate.
Qed.

Lemma address_char_not_at (s : string) :
  Js.all_chars address_char s = true -> Js.has_char "@" s = false.
Proof.
  induction s as [|a s IH]; simpl; [reflexivity|].
  intros H. apply andb_true_iff in H as [Ha Hs]. rewrite (IH Hs), orb_false_r.
  destruct (Ascii.eqb_spec a "@") as [->|]; [discriminate Ha | reflexivity].
Qed.

(** X24.  An address that the e-mail validator accepts is a local part,
    one [@] and a domain: both parts are non-empty and made of word
    characters, dots and dashes only, so that the address holds no second
    [@] and no white space. *)
Theorem accepted_address_shape email :
  email_validator email = true ->
  exists loc dom,
    email = (loc ++ "@" ++ dom)%string
    /\ loc <> "" /\ dom <> ""
    /\ Js.all_chars address_char loc = true
    /\ Js.all_chars address_char dom = true
    /\ Js.has_char "@" loc = false
    /\ Js.has_char "@" dom = false.
Proof.
  intros H. apply RegexFacts.test_sound in H. unfold email_pattern in H.
  apply EmailFacts.cat_shape in H as (loc & rest & -> & Hloc & H).
  apply EmailFacts.cat_shape in H as (a & dom & -> & Ha & Hdom).
  apply EmailFacts.class_shape in Ha as (c & -> & Hc).
  apply Ascii.eqb_eq in Hc as ->.
  exists loc, dom.
  assert (Hl : Js.all_chars address_char loc = true)
    by (apply (matches_within _ _ _ Hloc), dotted_words_within).
  assert (Hd : Js.all_chars address_char dom = true).
  { apply (matches_within _ _ _ Hdom). split; [apply dotted_words_within | apply tld_within]. }
  split; [reflexivity|].
  split; [now apply dotted_words_nonempty|].
  split.
  { apply EmailFacts.cat_shape in Hdom as (d1 & d2 & -> & Hd1 & _).
    apply dotted_words_nonempty in Hd1. destruct d1; [contradiction | discriminate]. }
  auto using address_char_not_at.
Qed.

End AddressFacts.

(** ** Further invariants of the ledger and of saving events *)

Module InvariantFacts.

Import Schema Http Passport Ledger.

Lemma lower_char_idem c : Js.lower_char (Js.lower_char c) = Js.lower_char c.
Proof.
  destruct c as [b0 b1 b2 b3 b4 b5 b6 b7].
  destruct b0, b1, b2, b3, b4, b5, b6, b7; reflexivity.
Qed.

Lemma toLowerCase_idem s : Js.toLowerCase (Js.toLowerCase s) = Js.toLowerCase s.
Proof.
  induction s as [|c s IH]; simpl; [reflexivity|]. now rewrite lower_char_idem, IH.
Qed.

Lemma new_usuario_lower oid t f :
  Js.toLowerCase (LoginLog.usuario (LoginLog.pre_save (LoginLog.new oid t f)))
  = LoginLog.usuario (LoginLog.pre_save (LoginLog.new oid t f)).
Proof. rewrite AuthFacts.pre_save_usuario. simpl. apply toLowerCase_idem. Qed.

(** The goal is a property of the ledger after one [save] of a new
    document built by [LoginLog.new]. *)
Ltac by_new_entry Hok :=
  match goal with
  | |- context [LoginLog.save (LoginLog.new ?oid ?t ?f) ?ledger] =>
      destruct (AuthFacts.save_cases (LoginLog.new oid t f) ledger) as [[? ->] | [_ ->]];
      simpl; [exact Hok | apply Forall_app; split; [exact Hok|];
                          constructor; [apply new_usuario_lower | constructor]]
  end.

Section Ops.

Variable jwt_sign : JwtPayload -> Z -> string.
Variable jwt_verify : string -> Z -> option JwtPayload.
Variable fromAuthHeaderAsBearerToken : option string -> option string.

Lemma step_lower ledger op :
  Forall (fun d => Js.toLowerCase (LoginLog.usuario d) = LoginLog.usuario d) ledger ->
  Forall (fun d => Js.toLowerCase (LoginLog.usuario d) = LoginLog.usuario d)
    (step jwt_sign jwt_verify fromAuthHeaderAsBearerToken ledger op).
Proof.
  intros Hok. destruct op; simpl.
  - unfold google_verify.
    destruct (emails profile) as [|mail ?]; [exact Hok|].
    destruct (photos profile) as [|photo ?]; [exact Hok|].
    by_new_entry Hok.
  - unfold AuthRoutes.post_refresh, AuthRoutes.authenticated.
    destruct (requireAuth _ _ _ _ _ _) as [rej|user]; [exact Hok|].
    unfold AuthRoutes.refresh_handler. by_new_entry Hok.
  - unfold AuthRoutes.post_logout, AuthRoutes.authenticated.
    destruct (requireAuth _ _ _ _ _ _) as [rej|user]; [exact Hok|].
    unfold AuthRoutes.logout_handler. by_new_entry Hok.
  - apply List.Forall_forall. intros d Hd. apply filter_In in Hd as [Hd _].
    rewrite List.Forall_forall in Hok. now apply Hok.
Qed.

(** X25.  The addresses of the ledger stay in lower case: when every
    entry has its address in lower case, so has every entry after any
    sequence of logins, refreshes, logouts and purges. *)
Theorem addresses_stay_lower_case ops ledger :
  Forall (fun d => Js.toLowerCase (LoginLog.usuario d) = LoginLog.usuario d) ledger ->
  Forall (fun d => Js.toLowerCase (LoginLog.usuario d) = LoginLog.usuario d)
    (run jwt_sign jwt_verify fromAuthHeaderAsBearerToken ops ledger).
Proof.
  unfold run. revert ledger. induction ops as [|op ops IH]; simpl; intros ledger Hok;
    [exact Hok|].
  apply IH. now apply step_lower.
Qed.

(** X26.  With a clock that does not run backwards between the two
    readings of the handler, [POST /logout] writes nothing: whatever the
    request, the ledger is as before and the answer is 401 or 500. *)
Theorem logout_writes_nothing t_jwt t_query t0 t1 t2 oid req ledger :
  t0 <= t1 ->
  let r := AuthRoutes.post_logout jwt_verify fromAuthHeaderAsBearerToken
             t_jwt t_query t0 t1 t2 oid req ledger in
  snd r = ledger
  /\ (fst r = {| status := 401; body := Unauthorized |}
      \/ fst r = {| status := 500; body := Error "Error en logout" [] |}).
Proof.
  intros Hle. cbn zeta. unfold AuthRoutes.post_logout, AuthRoutes.authenticated.
  destruct (requireAuth _ _ _ _ _ _) as [rej|user] eqn:Ha.
  - apply EventWriteFacts.requireAuth_rejection in Ha. subst rej. simpl. auto.
  - rewrite LedgerOps.logout_handler_fails by exact Hle. simpl. auto.
Qed.

End Ops.

(** X27.  The [pre('save')] hook of the event schema rejects a new event
    exactly when the event passes the validators and its timestamp lies
    after the clock reading of the validator and not after that of the
    hook; it never rejects a loaded event. *)
Theorem hook_rejects_in_the_window clk d coll :
  (Event.save true clk d coll
     = inl (HookError "No se pueden crear eventos con fecha pasada")
   <-> Event.validate (Event.at_validate clk) d = []
       /\ Event.at_validate clk < Event.timestamp d
       /\ Event.timestamp d <= Event.at_pre_save clk)
  /\ (forall msg, Event.save false clk d coll <> inl (HookError msg))
  /\ (forall msg, Event.save true clk d coll = inl (HookError msg) ->
        msg = "No se pueden crear eventos con fecha pasada").
Proof.
  unfold Event.save, Event.pre_save. simpl.
  destruct (Event.validate (Event.at_validate clk) d) as [|e errs] eqn:Hv.
  - pose proof (EventWriteFacts.validate_nil_timestamp _ _ Hv) as Hts.
    destruct (Z.leb_spec (Event.timestamp d) (Event.at_pre_save clk)) as [Hle|Hgt].
    + split; [split; auto|]. split; [discriminate|]. now intros msg [= <-].
    + split; [split; [discriminate | intros (_ & _ & H); lia]|].
      split; discriminate.
  - split; [split; [discriminate | intros (H & _); discriminate H]|].
    split; discriminate.
Qed.

End InvariantFacts.

(** ** The further properties on concrete data *)

Module MoreExamples.

Import Schema Http Passport Ledger EventRoutes.

Lemma created_event_is_stored_witness :
  exists e,
    Event.findById "65b000000000000000000002"
      (snd (create_handler Sample.getCoordinatesFromAddress Sample.uploadImage
              {| Event.at_validate := 5000; Event.at_pre_save := 5001 |}
              "65b000000000000000000002"
              {| c_nombre := Some "Feria"; c_timestamp := Some 90000000;
                 c_lugar := Some "Sevilla"; c_descripcion := None; c_categoria := None;
                 c_precio := None; c_capacidad := None; c_file := None |}
              Sample.ana [Sample.concert])) = Some e
    /\ Event.organizador e = "ana@example.com".
Proof.
  destruct (EventWriteFacts.created_event_is_stored
              Sample.getCoordinatesFromAddress Sample.uploadImage
              {| Event.at_validate := 5000; Event.at_pre_save := 5001 |}
              "65b000000000000000000002"
              {| c_nombre := Some "Feria"; c_timestamp := Some 90000000;
                 c_lugar := Some "Sevilla"; c_descripcion := None; c_categoria := None;
                 c_precio := None; c_capacidad := None; c_file := None |}
              Sample.ana [Sample.concert] _ _ (surjective_pairing _))
    as (e & _ & _ & Hfind & _ & Horg & _).
  - vm_compute. reflexivity.
  - vm_compute. reflexivity.
  - exists e. split; [exact Hfind | exact Horg].
Defined.


Lemma update_keeps_identity_witness :
  exists e',
    Event.findById "65b000000000000000000001"
      (snd (put_event Sample.jwt_verify Sample.fromAuthHeaderAsBearerToken
              Sample.castObjectId Sample.getCoordinatesFromAddress Sample.uploadImage
              4000 4500 {| Event.at_validate := 5000; Event.at_pre_save := 5001 |}
              (Sample.request_of "jwt-of-ana@example.com") "65b000000000000000000001"
              (Sample.move_to 95000000)
              [Sample.session "ana@example.com" "jwt-of-ana@example.com" 0 86400000]
              [Sample.concert])) = Some e'
    /\ Event.organizador e' = "ana@example.com".
Proof.
  destruct (EventWriteFacts.update_keeps_identity
              Sample.jwt_verify Sample.fromAuthHeaderAsBearerToken
              Sample.castObjectId Sample.getCoordinatesFromAddress Sample.uploadImage
              4000 4500 {| Event.at_validate := 5000; Event.at_pre_save := 5001 |}
              (Sample.request_of "jwt-of-ana@example.com") "65b000000000000000000001"
              "65b000000000000000000001" (Sample.move_to 95000000)
              [Sample.session "ana@example.com" "jwt-of-ana@example.com" 0 86400000]
              [Sample.concert] _ _ (surjective_pairing _))
    as (user & event & e' & _ & Hf & _ & _ & Hfind & _ & Horg & _).
  - vm_compute. reflexivity.
  - reflexivity.
  - exists e'. split; [exact Hfind|]. rewrite Horg.
    vm_compute in Hf. injection Hf as <-. reflexivity.
Defined.

Lemma delete_removes_event_witness :
  Event.findById "65b000000000000000000001"
    (snd (delete_event Sample.jwt_verify Sample.fromAuthHeaderAsBearerToken
            Sample.castObjectId 4000 4500
            (Sample.request_of "jwt-of-ana@example.com") "65b000000000000000000001"
            [Sample.session "ana@example.com" "jwt-of-ana@example.com" 0 86400000]
            [Sample.concert])) = None.
Proof.
  destruct (EventWriteFacts.delete_removes_event
              Sample.jwt_verify Sample.fromAuthHeaderAsBearerToken Sample.castObjectId
              4000 4500
              (Sample.request_of "jwt-of-ana@example.com") "65b000000000000000000001"
              "65b000000000000000000001"
              [Sample.session "ana@example.com" "jwt-of-ana@example.com" 0 86400000]
              [Sample.concert] _ _ (surjective_pairing _))
    as (user & event & _ & _ & _ & _ & _ & _ & Hgone).
  - vm_compute. reflexivity.
  - reflexivity.
  - apply Hgone. simpl. constructor; [intros [] | constructor].
Defined.

(** The event that [Ana@Example.com] created is stored under
    [ana@example.com]: its creator is refused. *)
Lemma creator_passes_iff_lower_case_witness :
  exists r,
    requireEventOwnership Sample.castObjectId "65b000000000000000000001"
      {| id := "1"; email := "Ana@Example.com"; name := "Ana"; provider := "google" |}
      [Sample.concert] = inl r
    /\ status r = 403%nat.
Proof.
  destruct (EventWriteFacts.creator_passes_iff_lower_case
              Sample.castObjectId "65b000000000000000000001" "65b000000000000000000001"
              {| id := "1"; email := "Ana@Example.com"; name := "Ana"; provider := "google" |}
              Sample.concert [Sample.concert] eq_refl eq_refl eq_refl) as [_ H].
  apply H. discriminate.
Defined.

(** Ana's request passes the gate after her logout as before. *)
Lemma session_survives_writes_witness :
  requireAuth Sample.jwt_verify Sample.fromAuthHeaderAsBearerToken 6000 6000
    (Sample.request_of "jwt-of-ana@example.com")
    (step Sample.jwt_sign Sample.jwt_verify Sample.fromAuthHeaderAsBearerToken
       [Sample.session "ana@example.com" "jwt-of-ana@example.com" 0 86400000]
       (LogoutOp 4000 4500 5000 5000 5001 "65a000000000000000000005"
          (Sample.request_of "jwt-of-ana@example.com")))
  = inr Sample.ana.
Proof.
  apply (AuthFacts.session_survives_writes
           Sample.jwt_sign Sample.jwt_verify Sample.fromAuthHeaderAsBearerToken).
  - exact I.
  - reflexivity.
Defined.

Lemma login_then_authenticated_witness :
  requireAuth Sample.jwt_verify Sample.fromAuthHeaderAsBearerToken 500 600
    (Sample.request_of "jwt-of-ana@example.com")
    (snd (google_verify Sample.jwt_sign 10 10 11 "65a000000000000000000002"
            {| profile_id := "1"; emails := ["ana@example.com"];
               displayName := "Ana"; photos := ["https://example.com/a.png"] |} []))
  = inr Sample.ana.
Proof.
  apply (AuthFacts.login_then_authenticated
           Sample.jwt_sign Sample.jwt_verify Sample.fromAuthHeaderAsBearerToken
           10 10 11 "65a000000000000000000002"
           {| profile_id := "1"; emails := ["ana@example.com"];
              displayName := "Ana"; photos := ["https://example.com/a.png"] |} []
           {| user_id := "1"; user_email := "ana@example.com"; user_name := "Ana";
              picture := "https://example.com/a.png"; user_provider := "google";
              user_token := "jwt-of-ana@example.com" |}).
  - vm_compute. reflexivity.
  - reflexivity.
  - reflexivity.
  - reflexivity.
  - vm_compute. reflexivity.
Defined.

Lemma refresh_appends_one_entry_witness :
  exists user entry,
    snd (AuthRoutes.post_refresh Sample.jwt_sign Sample.jwt_verify
           Sample.fromAuthHeaderAsBearerToken 20 20 21 21 22 "65a000000000000000000003"
           (Sample.request_of "jwt-of-ana@example.com")
           [Sample.session "ana@example.com" "jwt-of-ana@example.com" 11 86400010])
    = [Sample.session "ana@example.com" "jwt-of-ana@example.com" 11 86400010] ++ [entry]
    /\ LoginLog.usuario entry = Js.toLowerCase (email user)
    /\ LoginLog.loginType entry = "refresh".
Proof.
  destruct (SessionFacts.refresh_appends_one_entry
              Sample.jwt_sign Sample.jwt_verify Sample.fromAuthHeaderAsBearerToken
              20 20 21 21 22 "65a000000000000000000003"
              (Sample.request_of "jwt-of-ana@example.com")
              [Sample.session "ana@example.com" "jwt-of-ana@example.com" 11 86400010])
    as [H _];
  destruct (H eq_refl) as (user & entry & _ & Hs & _ & _ & Hu & _ & Hl & _);
  exists user, entry; auto.
Defined.

Lemma purge_changes_no_answer_witness :
  LoginLog.isTokenValid "jwt-of-ana@example.com" 6000
    (snd (LoginLog.cleanExpiredTokens 5000
            [Sample.session "eva@example.com" "jwt-of-eva@example.com" 0 4000;
             Sample.session "ana@example.com" "jwt-of-ana@example.com" 0 86400000]))
  = LoginLog.isTokenValid "jwt-of-ana@example.com" 6000
      [Sample.session "eva@example.com" "jwt-of-eva@example.com" 0 4000;
       Sample.session "ana@example.com" "jwt-of-ana@example.com" 0 86400000].
Proof.
  apply (SessionFacts.purge_changes_no_answer
           Sample.jwt_verify Sample.fromAuthHeaderAsBearerToken 5000 6000).
  lia.
Defined.

Lemma isTokenValid_exact_witness :
  LoginLog.token (Sample.session "ana@example.com" "jwt-of-ana@example.com" 0 86400000)
  = "jwt-of-ana@example.com".
Proof.
  destruct (SessionFacts.isTokenValid_exact "jwt-of-ana@example.com" 6000
              [Sample.session "ana@example.com" "jwt-of-ana@example.com" 0 86400000])
    as [H _].
  destruct (H (Sample.session "ana@example.com" "jwt-of-ana@example.com" 0 86400000)
              eq_refl) as (before & after & _ & Htok & _).
  exact Htok.
Defined.

Lemma recent_logs_are_the_latest_witness :
  List.length
    (LogQueries.recent_docs (Some 1%nat)
       [Sample.session "eva@example.com" "a" 10 4000;
        Sample.session "ana@example.com" "b" 20 5000]) = 1%nat
  /\ LoginLog.timestamp (Sample.session "eva@example.com" "a" 10 4000)
     <= LoginLog.timestamp (Sample.session "ana@example.com" "b" 20 5000).
Proof.
  destruct (LogFacts.recent_logs_are_the_latest (Some 1%nat)
              [Sample.session "eva@example.com" "a" 10 4000;
               Sample.session "ana@example.com" "b" 20 5000])
    as (Hlen & _ & _ & H & _).
  split; [exact Hlen|].
  apply H.
  - vm_compute. left. reflexivity.
  - vm_compute. left. reflexivity.
  - vm_compute. intros [E|[]]. discriminate E.
Defined.

Lemma profile_shows_own_logs_witness :
  (List.length
     (LogQueries.json_logs
        (LogQueries.getUserLogs "ana@example.com" (Some 5%nat)
           [Sample.session "eva@example.com" "jwt-of-eva@example.com" 10 86400000;
            Sample.session "ana@example.com" "jwt-of-ana@example.com" 20 86400000]))
   <= 5)%nat.
Proof.
  destruct (LogFacts.profile_shows_own_logs
              Sample.jwt_verify Sample.fromAuthHeaderAsBearerToken 4000 4500
              (Sample.request_of "jwt-of-ana@example.com")
              [Sample.session "eva@example.com" "jwt-of-eva@example.com" 10 86400000;
               Sample.session "ana@example.com" "jwt-of-ana@example.com" 20 86400000]
              Sample.ana _ eq_refl) as (_ & H & _).
  exact H.
Defined.

Lemma upcoming_are_the_next_witness :
  In Sample.concert [Sample.concert] /\ 1000 <= Event.timestamp Sample.concert.
Proof.
  destruct (EventReadFacts.upcoming_are_the_next 1000 [Sample.concert]) as (_ & _ & H & _).
  apply H. vm_compute. left. reflexivity.
Defined.

Lemma my_events_are_the_callers_witness :
  exists user,
    requireAuth Sample.jwt_verify Sample.fromAuthHeaderAsBearerToken 4000 4500
      (Sample.request_of "jwt-of-ana@example.com")
      [Sample.session "ana@example.com" "jwt-of-ana@example.com" 0 86400000] = inr user
    /\ (forall d, In d [Sample.concert] <->
          In d [Sample.concert] /\ Event.organizador d = Js.toLowerCase (email user)).
Proof.
  destruct (EventReadFacts.my_events_are_the_callers
              Sample.jwt_verify Sample.fromAuthHeaderAsBearerToken 4000 4500
              (Sample.request_of "jwt-of-ana@example.com")
              [Sample.session "ana@example.com" "jwt-of-ana@example.com" 0 86400000]
              [Sample.concert] 1%nat [Sample.concert] eq_refl)
    as (user & Ha & _ & Hin & _).
  exists user. split; [exact Ha | exact Hin].
Defined.

Lemma findNearby_is_monotone_witness :
  In Sample.concert (Event.findNearby 500 (4001 # 100) (-301 # 100) (Some (1 # 2)) [Sample.concert]).
Proof.
  apply (EventReadFacts.findNearby_is_monotone 1000 500 (4001 # 100) (-301 # 100)
           (2 # 10) (1 # 2) [Sample.concert] Sample.concert).
  - vm_compute. discriminate.
  - lia.
  - vm_compute. now left.
Defined.

Lemma image_to_delete_of_url_witness :
  EventQueries.image_to_delete
    "https://res.cloudinary.com/demo/image/upload/v1700000000/eventos/abc123.webp"
  = "eventos/abc123".
Proof.
  apply (EventReadFacts.image_to_delete_of_url
           "https://res.cloudinary.com/demo/image/upload/v1700000000/eventos"
           "abc123" "webp"); reflexivity.
Defined.

Lemma event_transform_renames_id_witness :
  EventQueries.transform
    (<["_id" := "65b000000000000000000001"]> (<["nombre" := "Concert"]> (<["__v" := "0"]> ∅))
       : gmap string string) !! "id"
  = Some "65b000000000000000000001".
Proof.
  apply EventReadFacts.event_transform_renames_id. reflexivity.
Defined.

Lemma accepted_address_shape_witness :
  exists loc dom,
    "maria.lopez-1@mail.example.es" = (loc ++ "@" ++ dom)%string
    /\ loc <> "" /\ dom <> "".
Proof.
  destruct (AddressFacts.accepted_address_shape "maria.lopez-1@mail.example.es" eq_refl)
    as (loc & dom & H1 & H2 & H3 & _).
  exists loc, dom. auto.
Defined.

Lemma addresses_stay_lower_case_witness :
  Forall (fun d => Js.toLowerCase (LoginLog.usuario d) = LoginLog.usuario d)
    (run Sample.jwt_sign Sample.jwt_verify Sample.fromAuthHeaderAsBearerToken
       [ GoogleLogin 10 10 11 "65a000000000000000000002"
           {| profile_id := "1"; emails := ["Ana@Example.com"];
              displayName := "Ana"; photos := ["https://example.com/a.png"] |};
         Purge 40 ]
       []).
Proof.
  apply InvariantFacts.addresses_stay_lower_case. apply List.Forall_nil.
Defined.

Lemma logout_writes_nothing_witness :
  snd (AuthRoutes.post_logout Sample.jwt_verify Sample.fromAuthHeaderAsBearerToken
         4000 4500 5000 5000 5001 "65a000000000000000000005"
         (Sample.request_of "jwt-of-ana@example.com")
         [Sample.session "ana@example.com" "jwt-of-ana@example.com" 0 86400000])
  = [Sample.session "ana@example.com" "jwt-of-ana@example.com" 0 86400000].
Proof.
  apply (InvariantFacts.logout_writes_nothing
           Sample.jwt_verify Sample.fromAuthHeaderAsBearerToken
           4000 4500 5000 5000 5001). lia.
Defined.

(** An event timed between the two clock readings of its creation is
    turned down by the hook. *)
Lemma hook_rejects_in_the_window_witness :
  Event.save true {| Event.at_validate := 5000; Event.at_pre_save := 5002 |}
    (EventRoutes.set_timestamp 5001 Sample.concert) []
  = inl (HookError "No se pueden crear eventos con fecha pasada").
Proof.
  destruct (InvariantFacts.hook_rejects_in_the_window
              {| Event.at_validate := 5000; Event.at_pre_save := 5002 |}
              (EventRoutes.set_timestamp 5001 Sample.concert) []) as [[_ H] _].
  apply H. split; [vm_compute; reflexivity | simpl; lia].
Defined.

Lemma requireAuth_fails_closed_witness :
  requireAuth Sample.jwt_verify Sample.fromAuthHeaderAsBearerToken 4000 4500
    {| authorization := Some "Basic abc"; user_agent := None; ip := "::1" |}
    [Sample.session "ana@example.com" "jwt-of-ana@example.com" 0 86400000]
  = inl {| status := 401; body := Unauthorized |}.
Proof.
  destruct (AuthFacts.requireAuth_fails_closed
              Sample.jwt_verify Sample.fromAuthHeaderAsBearerToken 4000 4500
              {| authorization := Some "Basic abc"; user_agent := None; ip := "::1" |}
              [Sample.session "ana@example.com" "jwt-of-ana@example.com" 0 86400000])
    as (_ & _ & H).
  apply H. reflexivity.
Defined.

End MoreExamples.

(** ** The read routes as a whole *)

Module RouteFacts.

Import Schema Http Passport EventQueries LogQueries LogRoutes.

Lemma findNearby_future_sorted now qlat qlon r events :
  Forall (fun d => now <= Event.timestamp d) (Event.findNearby now qlat qlon r events)
  /\ StronglySorted (fun a b => Event.timestamp a <= Event.timestamp b)
       (Event.findNearby now qlat qlon r events).
Proof.
  unfold Event.findNearby. split; [|apply GeoFacts.sort_sorted].
  apply List.Forall_forall. intros d Hd.
  apply GeoFacts.sort_In, filter_In in Hd as [_ Hd].
  now apply GeoFacts.nearby_iff in Hd.
Qed.

Lemma upcoming_future_sorted now events :
  Forall (fun d => now <= Event.timestamp d) (upcoming now events)
  /\ StronglySorted (fun a b => Event.timestamp a <= Event.timestamp b)
       (upcoming now events).
Proof.
  unfold upcoming.
  set (future := List.filter (fun d => now <=? Event.timestamp d) events).
  pose proof (GeoFacts.sort_sorted future) as Hs.
  rewrite <- (firstn_skipn 100 (Event.sort_by_timestamp future)) in Hs.
  apply LogFacts.sorted_app_inv in Hs as [Hs _]. split; [|exact Hs].
  apply List.Forall_forall. intros d Hd.
  assert (H : In d (Event.sort_by_timestamp future)).
  { rewrite <- (firstn_skipn 100 (Event.sort_by_timestamp future)).
    apply in_or_app. now left. }
  apply GeoFacts.sort_In, filter_In in H as [_ H]. lia.
Qed.

Section Routes.

Variable jwt_verify : string -> Z -> option JwtPayload.
Variable fromAuthHeaderAsBearerToken : option string -> option string.
Variable castObjectId : string -> option string.
Variable getCoordinatesFromAddress : string -> option EventRoutes.Coordinates.
Variable uploadImage : string -> option string.
Variable parseFloat : string -> option Q.

(** X28.  Whichever way [GET /api/events] is asked (coordinates, address
    or nothing), a listing it answers carries the number of its events
    as [count], holds no event before the instant of the query and is in
    ascending order of timestamp; its only refusals are 400. *)
Theorem get_events_lists_future_events now q events :
  match get_events getCoordinatesFromAddress parseFloat now q events with
  | Listed count found =>
      count = List.length found
      /\ Forall (fun d => now <= Event.timestamp d) found
      /\ StronglySorted (fun a b => Event.timestamp a <= Event.timestamp b) found
  | Refused status _ => status = 400%nat
  end.
Proof.
  unfold get_events, listed.
  destruct (EventRoutes.truthy_opt (q_lat q) && EventRoutes.truthy_opt (q_lon q)).
  - destruct (parseFloat (EventRoutes.or_else (q_lat q) "")) as [latitude|]; [|reflexivity].
    destruct (parseFloat (EventRoutes.or_else (q_lon q) "")) as [longitude|]; [|reflexivity].
    split; [reflexivity | apply findNearby_future_sorted].
  - destruct (EventRoutes.truthy_opt (q_address q)).
    + destruct (getCoordinatesFromAddress _) as [coords|]; [|reflexivity].
      split; [reflexivity | apply findNearby_future_sorted].
    + split; [reflexivity | apply upcoming_future_sorted].
Qed.

(** X29.  An identifier that does not cast to an [ObjectId] is answered
    400 by [GET /api/events/:id], and 500 by [PUT] and [DELETE] for an
    authenticated caller, the stored events being unchanged; an
    identifier that casts and names no event is answered 404 by the
    three. *)
Theorem malformed_and_unknown_ids t_jwt t_query clk req param_id b ledger events user :
  requireAuth jwt_verify fromAuthHeaderAsBearerToken t_jwt t_query req ledger = inr user ->
  let get := get_event castObjectId param_id events in
  let put := EventRoutes.put_event jwt_verify fromAuthHeaderAsBearerToken castObjectId
               getCoordinatesFromAddress uploadImage
               t_jwt t_query clk req param_id b ledger events in
  let del := EventRoutes.delete_event jwt_verify fromAuthHeaderAsBearerToken castObjectId
               t_jwt t_query req param_id ledger events in
  (castObjectId param_id = None ->
   get = NotFoundEvent 400 "ID de evento inválido"
   /\ put = ({| status := 500; body := Error "Error verificando permisos" [] |}, events)
   /\ del = ({| status := 500; body := Error "Error verificando permisos" [] |}, events))
  /\ (forall oid, castObjectId param_id = Some oid -> Event.findById oid events = None ->
      get = NotFoundEvent 404 "Evento no encontrado"
      /\ put = ({| status := 404; body := Error "Evento no encontrado" [] |}, events)
      /\ del = ({| status := 404; body := Error "Evento no encontrado" [] |}, events)).
Proof.
  intros Ha. cbn zeta.
  unfold get_event, EventRoutes.put_event, EventRoutes.delete_event, EventRoutes.owned,
    requireEventOwnership.
  rewrite Ha. split.
  - intros ->. auto.
  - intros oid -> ->. auto.
Qed.


End Routes.

Lemma malformed_and_unknown_ids_witness :
  EventQueries.get_event Sample.castObjectId "not-an-id" [Sample.concert]
  = NotFoundEvent 400 "ID de evento inválido"
  /\ EventRoutes.put_event Sample.jwt_verify Sample.fromAuthHeaderAsBearerToken
       Sample.castObjectId Sample.getCoordinatesFromAddress Sample.uploadImage
       4000 4500 {| Event.at_validate := 5000; Event.at_pre_save := 5001 |}
       (Sample.request_of "jwt-of-ana@example.com") "not-an-id" Sample.empty_update
       [Sample.session "ana@example.com" "jwt-of-ana@example.com" 0 86400000]
       [Sample.concert]
     = ({| status := 500; body := Error "Error verificando permisos" [] |}, [Sample.concert]).
Proof.
  destruct (malformed_and_unknown_ids
              Sample.jwt_verify Sample.fromAuthHeaderAsBearerToken Sample.castObjectId
              Sample.getCoordinatesFromAddress Sample.uploadImage
              4000 4500 {| Event.at_validate := 5000; Event.at_pre_save := 5001 |}
              (Sample.request_of "jwt-of-ana@example.com") "not-an-id" Sample.empty_update
              [Sample.session "ana@example.com" "jwt-of-ana@example.com" 0 86400000]
              [Sample.concert] Sample.ana eq_refl) as [H _].
  destruct (H eq_refl) as (Hget & Hput & _). split; [exact Hget | exact Hput].
Defined.

End RouteFacts.
